(** * Strava club ride calendar: the event parser and the calendar assembler

    A shallow embedding of [scraper.py] (class [StravaEventScraper]):
    [load_club_urls], [parse_event_details], the row loop of
    [scrape_club_events], [filter_events_by_date_range],
    [generate_ics_calendar] and the tail of [run], together with the parts
    of the Python runtime they call
    ([re.match], [datetime], [timedelta], [strptime], [strftime],
    [str.split], [str.strip]).

    Conventions.
    - Text is [string]; a character is a code point below 256 (Latin-1),
      and the character classes of [re] are the Unicode ones restricted to
      that range.
    - Integers are [Z].
    - A Python exception is a value of [exn]; code that may raise lives in
      the monad [M]; [try ... except] is a [match] on the outcome.
    - [datetime.now()] is the one input the code reads from its
      environment: every reading is an explicit argument, in call order.
    - [pytz]'s America/Los_Angeles transition table is not part of the
      program; the UTC offset [localize] chooses for a wall-clock time is a
      section variable. So is what [icalendar] refuses to write: whether
      [to_ical()] takes a URL value. *)

From Stdlib Require Import ZArith List String Ascii Bool Lia.
Import ListNotations.
Open Scope string_scope.
Open Scope Z_scope.

(** ** Exceptions *)

Inductive exn : Type :=
| ValueError
| OverflowError
| NoSuchElementException
| AttributeError
| AssertionError.

Inductive M (A : Type) : Type :=
| Val (a : A)
| Raise (e : exn).
Arguments Val {A} a.
Arguments Raise {A} e.

Definition bind {A B : Type} (m : M A) (f : A -> M B) : M B :=
  match m with
  | Val a => f a
  | Raise e => Raise e
  end.

Notation "x <- m ;; k" := (bind m (fun x => k))
  (at level 61, m at next level, right associativity).

(** ** Text *)

Module Text.

Definition code (a : ascii) : Z := Z.of_N (N_of_ascii a).

Definition between (lo hi : Z) (a : ascii) : bool :=
  (lo <=? code a) && (code a <=? hi).

(** [str.isspace] on code points below 256; this is [\s] of a str pattern. *)
Definition is_space (a : ascii) : bool :=
  between 9 13 a || between 28 32 a || (code a =? 133) || (code a =? 160).

(** [\d]: the decimal digits (category Nd) below 256. *)
Definition is_digit (a : ascii) : bool := between 48 57 a.

(** [str.isalpha] on code points below 256. *)
Definition is_alpha (a : ascii) : bool :=
  between 65 90 a || between 97 122 a || (code a =? 170) || (code a =? 181)
  || (code a =? 186) || between 192 214 a || between 216 246 a
  || between 248 255 a.

(** [str.isnumeric] on code points below 256 (digits, superscripts and
    vulgar fractions). *)
Definition is_numeric (a : ascii) : bool :=
  is_digit a || (code a =? 178) || (code a =? 179) || (code a =? 185)
  || between 188 190 a.

(** [\w]: alphanumeric or underscore. *)
Definition is_word (a : ascii) : bool :=
  is_alpha a || is_numeric a || (code a =? 95).

(** [.] without DOTALL: anything but a line feed. *)
Definition is_dot (a : ascii) : bool := negb (code a =? 10).

Definition is_char (c : ascii) (a : ascii) : bool := Ascii.eqb c a.

(** Lower-casing of the ASCII letters, which is all IGNORECASE does to the
    literals the program matches (month names, am, pm) below 256. *)
Definition lower (a : ascii) : ascii :=
  if between 65 90 a then ascii_of_N (N_of_ascii a + 32) else a.

Definition is_char_ci (c : ascii) (a : ascii) : bool :=
  Ascii.eqb (lower c) (lower a).

Definition is_range (lo hi : ascii) (a : ascii) : bool :=
  between (code lo) (code hi) a.

Fixpoint rev_string (acc s : string) : string :=
  match s with
  | EmptyString => acc
  | String a s' => rev_string (String a acc) s'
  end.

Fixpoint lstrip (s : string) : string :=
  match s with
  | String a s' => if is_space a then lstrip s' else s
  | EmptyString => EmptyString
  end.

(** [str.strip()] with no argument. *)
Definition strip (s : string) : string :=
  rev_string "" (lstrip (rev_string "" (lstrip s))).

(** [s.split(sep)] for a one-character separator: the pieces between the
    separators, never an empty list. [cur] is the piece being read,
    reversed. *)
Fixpoint split_go (sep : ascii) (cur : string) (s : string) : list string :=
  match s with
  | EmptyString => [rev_string "" cur]
  | String a s' =>
      if Ascii.eqb a sep then rev_string "" cur :: split_go sep "" s'
      else split_go sep (String a cur) s'
  end.

Definition split (sep : ascii) (s : string) : list string :=
  split_go sep "" s.

(** [xs[-1]]; the default is never reached on the result of [split]. *)
Definition last_item (xs : list string) : string := List.last xs "".

(** [int(s)] on text a pattern has already restricted to digits with at
    most blanks in front. *)
Definition digit_val (a : ascii) : Z := code a - 48.

Fixpoint int_go (acc : Z) (s : string) : Z :=
  match s with
  | EmptyString => acc
  | String a s' => int_go (10 * acc + digit_val a) s'
  end.

Definition int_of (s : string) : Z := int_go 0 (lstrip s).

Definition digit_char (d : Z) : ascii := ascii_of_N (Z.to_N (48 + d)).

(** [str(n)] for [n >= 0]: decimal, no padding. *)
Fixpoint str_go (fuel : nat) (n : Z) (acc : string) : string :=
  match fuel with
  | O => acc
  | S fuel' =>
      let acc' := String (digit_char (n mod 10)) acc in
      if n / 10 =? 0 then acc' else str_go fuel' (n / 10) acc'
  end.

Definition str_of_int (n : Z) : string :=
  str_go (S (Z.to_nat (Z.log2 n))) n "".

(** [f"{n:02d}"] for [0 <= n < 100]. *)
Definition two_digits (n : Z) : string :=
  String (digit_char (n / 10)) (String (digit_char (n mod 10)) "").

Fixpoint contains_char (c : ascii) (s : string) : bool :=
  match s with
  | EmptyString => false
  | String a s' => Ascii.eqb a c || contains_char c s'
  end.

Fixpoint all_chars (p : ascii -> bool) (s : string) : bool :=
  match s with
  | EmptyString => true
  | String a s' => p a && all_chars p s'
  end.

(** [s] occurs in [t] when [t = pre ++ s ++ post]. *)
Definition occurs_in (s t : string) : Prop :=
  exists pre post, t = pre ++ s ++ post.

End Text.

(** ** Regular expressions: the backtracking matcher of [re.match]

    The fragment the program's patterns use: character classes, greedy
    bounded and unbounded repetition of a class, sequence, ordered
    alternation and numbered capture groups. Matching is by backtracking
    with a continuation, first match wins, as in [sre]. *)

Module Re.

Inductive regex : Type :=
| Eps
| Cls (p : ascii -> bool)
| Seq (r1 r2 : regex)
| Alt (r1 r2 : regex)
| Rep (p : ascii -> bool) (lo : nat) (hi : option nat)
| Group (i : nat) (r : regex).

(** The groups matched so far, most recent first. *)
Definition caps : Type := list (nat * string).

Fixpoint group (i : nat) (c : caps) : string :=
  match c with
  | [] => ""
  | (j, s) :: c' => if Nat.eqb i j then s else group i c'
  end.

(** The text consumed between input [s] and its suffix [s']. *)
Definition consumed (s s' : string) : string :=
  substring 0 (String.length s - String.length s') s.

Definition hi_pred (hi : option nat) : option nat :=
  match hi with
  | Some n => Some (Nat.pred n)
  | None => None
  end.

Definition hi_open (hi : option nat) : bool :=
  match hi with
  | Some O => false
  | _ => true
  end.

(** Greedy repetition of a class: take as many characters as allowed, then
    give one back at a time while the continuation fails. *)
Fixpoint rep {A : Type} (p : ascii -> bool) (lo : nat) (hi : option nat)
    (s : string) (k : string -> option A) : option A :=
  let stop := match lo with O => k s | S _ => None end in
  match s with
  | String a s' =>
      if p a && hi_open hi then
        match rep p (Nat.pred lo) (hi_pred hi) s' k with
        | Some x => Some x
        | None => stop
        end
      else stop
  | EmptyString => stop
  end.

Fixpoint rmatch {A : Type} (r : regex) (s : string) (c : caps)
    (k : string -> caps -> option A) : option A :=
  match r with
  | Eps => k s c
  | Cls p =>
      match s with
      | String a s' => if p a then k s' c else None
      | EmptyString => None
      end
  | Seq r1 r2 => rmatch r1 s c (fun s1 c1 => rmatch r2 s1 c1 k)
  | Alt r1 r2 =>
      match rmatch r1 s c k with
      | Some x => Some x
      | None => rmatch r2 s c k
      end
  | Rep p lo hi => rep p lo hi s (fun s1 => k s1 c)
  | Group i r =>
      rmatch r s c (fun s1 c1 => k s1 ((i, consumed s s1) :: c1))
  end.

(** [re.match(r, s)]: the first match at the start of [s]; the result is
    the unmatched rest and the groups. *)
Definition re_match (r : regex) (s : string) : option (string * caps) :=
  rmatch r s [] (fun s1 c1 => Some (s1, c1)).

Fixpoint lit (s : string) : regex :=
  match s with
  | EmptyString => Eps
  | String a s' => Seq (Cls (Text.is_char a)) (lit s')
  end.

Fixpoint lit_ci (s : string) : regex :=
  match s with
  | EmptyString => Eps
  | String a s' => Seq (Cls (Text.is_char_ci a)) (lit_ci s')
  end.

Fixpoint alts (rs : list regex) : regex :=
  match rs with
  | [] => Cls (fun _ => false)
  | [r] => r
  | r :: rs' => Alt r (alts rs')
  end.

Fixpoint seqs (rs : list regex) : regex :=
  match rs with
  | [] => Eps
  | [r] => r
  | r :: rs' => Seq r (seqs rs')
  end.

Definition plus (p : ascii -> bool) : regex := Rep p 1 None.
Definition star (p : ascii -> bool) : regex := Rep p 0 None.

Definition within (hi : option nat) (n : nat) : Prop :=
  match hi with
  | Some h => (n <= h)%nat
  | None => True
  end.

(** The declarative reading of a pattern: [matches r w c c'] when [r] can
    consume exactly [w], turning the groups [c] into [c']. *)
Fixpoint matches (r : regex) (w : string) (c c' : caps) : Prop :=
  match r with
  | Eps => w = "" /\ c' = c
  | Cls p => exists a, w = String a "" /\ p a = true /\ c' = c
  | Seq r1 r2 =>
      exists w1 w2 c1,
        w = w1 ++ w2 /\ matches r1 w1 c c1 /\ matches r2 w2 c1 c'
  | Alt r1 r2 => matches r1 w c c' \/ matches r2 w c c'
  | Rep p lo hi =>
      Text.all_chars p w = true /\ (lo <= String.length w)%nat
      /\ within hi (String.length w) /\ c' = c
  | Group i r => exists c1, matches r w c c1 /\ c' = (i, w) :: c1
  end.

(** A text that is empty or starts with a character outside [p]. *)
Definition starts_outside (p : ascii -> bool) (s : string) : Prop :=
  match s with
  | EmptyString => True
  | String a _ => p a = false
  end.


End Re.

(** The pattern of [parse_event_details]:
    [(\w+)\s+(\d{1,2}:\d{2})\s+(AM|PM)\s*/\s*(.+)]. *)
Definition title_pattern : Re.regex :=
  Re.seqs
    [ Re.Group 1 (Re.plus Text.is_word);
      Re.plus Text.is_space;
      Re.Group 2 (Re.seqs [ Re.Rep Text.is_digit 1 (Some 2%nat);
                            Re.Cls (Text.is_char ":");
                            Re.Rep Text.is_digit 2 (Some 2%nat) ]);
      Re.plus Text.is_space;
      Re.Group 3 (Re.Alt (Re.lit "AM") (Re.lit "PM"));
      Re.star Text.is_space;
      Re.Cls (Text.is_char "/");
      Re.star Text.is_space;
      Re.Group 4 (Re.plus Text.is_dot) ].


(** The pattern after the day token. *)
Definition title_tail : Re.regex :=
  Re.seqs
    [ Re.plus Text.is_space;
      Re.Group 2 (Re.seqs [ Re.Rep Text.is_digit 1 (Some 2%nat);
                            Re.Cls (Text.is_char ":");
                            Re.Rep Text.is_digit 2 (Some 2%nat) ]);
      Re.plus Text.is_space;
      Re.Group 3 (Re.Alt (Re.lit "AM") (Re.lit "PM"));
      Re.star Text.is_space;
      Re.Cls (Text.is_char "/");
      Re.star Text.is_space;
      Re.Group 4 (Re.plus Text.is_dot) ].

(** The continuation of [re_match]. *)
Definition accept (s : string) (c : Re.caps) : option (string * Re.caps) :=
  Some (s, c).

(** A text whose first character is in [p]. *)
Definition starts_with (p : ascii -> bool) (s : string) : Prop :=
  match s with
  | EmptyString => False
  | String a _ => p a = true
  end.

(** ** Dates and times: Python's [datetime] module *)

Module Datetime.

Definition MINYEAR : Z := 1.
Definition MAXYEAR : Z := 9999.
Definition MAXORDINAL : Z := 3652059.

Definition DAYS_IN_MONTH : list Z :=
  [-1; 31; 28; 31; 30; 31; 30; 31; 31; 30; 31; 30; 31].

Definition DAYS_BEFORE_MONTH : list Z :=
  [-1; 0; 31; 59; 90; 120; 151; 181; 212; 243; 273; 304; 334].

Definition is_leap (year : Z) : bool :=
  (year mod 4 =? 0) && (negb (year mod 100 =? 0) || (year mod 400 =? 0)).

Definition days_before_year (year : Z) : Z :=
  let y := year - 1 in
  y * 365 + y / 4 - y / 100 + y / 400.

Definition days_in_month (year month : Z) : Z :=
  if (month =? 2) && is_leap year then 29
  else nth (Z.to_nat month) DAYS_IN_MONTH (-1).

Definition days_before_month (year month : Z) : Z :=
  nth (Z.to_nat month) DAYS_BEFORE_MONTH (-1)
  + (if (2 <? month) && is_leap year then 1 else 0).

Definition ymd2ord (year month day : Z) : Z :=
  days_before_year year + days_before_month year month + day.

Definition DI400Y : Z := 146097.
Definition DI100Y : Z := 36524.
Definition DI4Y : Z := 1461.

Definition ord2ymd (n : Z) : Z * Z * Z :=
  let n := n - 1 in
  let n400 := n / DI400Y in
  let n := n mod DI400Y in
  let year := n400 * 400 + 1 in
  let n100 := n / DI100Y in
  let n := n mod DI100Y in
  let n4 := n / DI4Y in
  let n := n mod DI4Y in
  let n1 := n / 365 in
  let n := n mod 365 in
  let year := year + n100 * 100 + n4 * 4 + n1 in
  if (n1 =? 4) || (n100 =? 4) then (year - 1, 12, 31)
  else
    let leapyear := (n1 =? 3) && (negb (n4 =? 24) || (n100 =? 3)) in
    let month := Z.shiftr (n + 50) 5 in
    let preceding :=
      nth (Z.to_nat month) DAYS_BEFORE_MONTH (-1)
      + (if (2 <? month) && leapyear then 1 else 0) in
    if n <? preceding then
      let month' := month - 1 in
      let preceding' :=
        preceding - (nth (Z.to_nat month') DAYS_IN_MONTH (-1)
                     + (if (month' =? 2) && leapyear then 1 else 0)) in
      (year, month', n - preceding' + 1)
    else (year, month, n - preceding + 1).

(** The month and day step of [ord2ymd], on the day [n] of a year
    (from 0), and the two tables with the leap day folded in. *)
Definition month_day (leapyear : bool) (n : Z) : Z * Z :=
    let month := Z.shiftr (n + 50) 5 in
    let preceding :=
      nth (Z.to_nat month) DAYS_BEFORE_MONTH (-1)
      + (if (2 <? month) && leapyear then 1 else 0) in
    if n <? preceding then
      let month' := month - 1 in
      let preceding' :=
        preceding - (nth (Z.to_nat month') DAYS_IN_MONTH (-1)
                     + (if (month' =? 2) && leapyear then 1 else 0)) in
      (month', n - preceding' + 1)
    else (month, n - preceding + 1).

Definition dbm (leap : bool) (m : Z) : Z :=
  nth (Z.to_nat m) DAYS_BEFORE_MONTH (-1) + (if (2 <? m) && leap then 1 else 0).
Definition dim (leap : bool) (m : Z) : Z :=
  if (m =? 2) && leap then 29 else nth (Z.to_nat m) DAYS_IN_MONTH (-1).

Definition month_day_ok (leap : bool) (n : Z) : bool :=
  let '(m, d) := month_day leap n in
  (1 <=? m) && (m <=? 12) && (1 <=? d) && (d <=? dim leap m)
  && (dbm leap m + d =? n + 1).

(** What [ord2ymd n] has to satisfy. *)
Definition ord_ok (n : Z) (ymd : Z * Z * Z) : Prop :=
  let '(y, m, d) := ymd in
  ymd2ord y m d = n /\ 1 <= m <= 12 /\ 1 <= d <= days_in_month y m /\ 1 <= y
  /\ (n <= MAXORDINAL -> y <= MAXYEAR).

Record date : Type := mkdate { year : Z; month : Z; day : Z }.

Record time : Type :=
  mktime { hour : Z; minute : Z; second : Z; microsecond : Z }.

(** A naive [datetime]. *)
Record datetime : Type := combine { date_of : date; time_of : time }.

(** What the constructors check before they build a value. *)
Definition valid_date (d : date) : bool :=
  (MINYEAR <=? year d) && (year d <=? MAXYEAR)
  && (1 <=? month d) && (month d <=? 12)
  && (1 <=? day d) && (day d <=? days_in_month (year d) (month d)).

Definition valid_time (t : time) : bool :=
  (0 <=? hour t) && (hour t <? 24) && (0 <=? minute t) && (minute t <? 60)
  && (0 <=? second t) && (second t <? 60)
  && (0 <=? microsecond t) && (microsecond t <? 1000000).

Definition valid_datetime (dt : datetime) : bool :=
  valid_date (date_of dt) && valid_time (time_of dt).

(** [datetime(y, m, d, H, M)]: raises ValueError on fields out of range. *)
Definition new_datetime (y m d H Mi : Z) : M datetime :=
  let dt := combine (mkdate y m d) (mktime H Mi 0 0) in
  if valid_datetime dt then Val dt else Raise ValueError.

Definition toordinal (d : date) : Z := ymd2ord (year d) (month d) (day d).

(** [date.weekday()]: Monday is 0. *)
Definition weekday (d : date) : Z := (toordinal d + 6) mod 7.

Definition fromordinal (n : Z) : date :=
  let '(y, m, d) := ord2ymd n in mkdate y m d.

(** A [timedelta] is a number of microseconds. *)
Definition timedelta : Type := Z.
Definition US_PER_SECOND : Z := 1000000.
Definition US_PER_DAY : Z := 86400 * US_PER_SECOND.
Definition td_minutes (n : Z) : timedelta := n * 60 * US_PER_SECOND.
Definition td_days (n : Z) : timedelta := n * US_PER_DAY.
Definition td_weeks (n : Z) : timedelta := n * 7 * US_PER_DAY.

Definition time_micros (t : time) : Z :=
  (hour t * 3600 + minute t * 60 + second t) * US_PER_SECOND + microsecond t.

(** The position of a naive datetime on the proleptic Gregorian time line,
    in microseconds: [timedelta(toordinal, hours, minutes, seconds,
    microseconds)] of [datetime.__add__]. *)
Definition to_micros (dt : datetime) : Z :=
  toordinal (date_of dt) * US_PER_DAY + time_micros (time_of dt).

(** [datetime.__add__(timedelta)]. *)
Definition add (dt : datetime) (td : timedelta) : M datetime :=
  let delta := to_micros dt + td in
  let days := delta / US_PER_DAY in
  let rest := delta mod US_PER_DAY in
  let seconds := rest / US_PER_SECOND in
  let us := rest mod US_PER_SECOND in
  let hour := seconds / 3600 in
  let rem := seconds mod 3600 in
  let minute := rem / 60 in
  let second := rem mod 60 in
  if (0 <? days) && (days <=? MAXORDINAL)
  then Val (combine (fromordinal days) (mktime hour minute second us))
  else Raise OverflowError.

(** [datetime.__sub__(timedelta)] is [self + -other]. *)
Definition sub (dt : datetime) (td : timedelta) : M datetime := add dt (- td).

(** [a - b] of two naive datetimes. *)
Definition diff (a b : datetime) : timedelta := to_micros a - to_micros b.

(** The order of naive datetimes: Python compares the field tuples, which
    for valid values is the order of the time line. *)
Definition lt (a b : datetime) : bool := to_micros a <? to_micros b.
Definition le (a b : datetime) : bool := to_micros a <=? to_micros b.

(** A [tzinfo] of pytz: one fixed-offset instance of a zone. The offset is
    in minutes. *)
Record tzinfo : Type := mktz { zone : string; utcoffset : Z }.

Definition tzinfo_eqb (a b : tzinfo) : bool :=
  String.eqb (zone a) (zone b) && (utcoffset a =? utcoffset b).

(** An aware datetime: wall-clock fields and the tzinfo. *)
Record aware : Type := mkaware { wall : datetime; tz : tzinfo }.

Definition utc_micros (a : aware) : Z :=
  to_micros (wall a) - td_minutes (utcoffset (tz a)).

(** Arithmetic on an aware datetime is wall-clock arithmetic; the tzinfo is
    kept as it is. *)
Definition aware_add (a : aware) (td : timedelta) : M aware :=
  w <- add (wall a) td ;; Val (mkaware w (tz a)).

Definition aware_sub (a : aware) (td : timedelta) : M aware :=
  aware_add a (- td).

(** [a - b] of two aware datetimes: with the same tzinfo the wall clocks are
    subtracted, otherwise the UTC instants. *)
Definition aware_diff (a b : aware) : timedelta :=
  if tzinfo_eqb (tz a) (tz b) then diff (wall a) (wall b)
  else utc_micros a - utc_micros b.

(** [a <= b] of two aware datetimes, the same way. *)
Definition aware_le (a b : aware) : bool :=
  if tzinfo_eqb (tz a) (tz b) then le (wall a) (wall b)
  else utc_micros a <=? utc_micros b.

(** *** [strptime] *)

Definition month_abbr : list string :=
  ["jan"; "feb"; "mar"; "apr"; "may"; "jun";
   "jul"; "aug"; "sep"; "oct"; "nov"; "dec"].

Fixpoint lower_string (s : string) : string :=
  match s with
  | EmptyString => EmptyString
  | String a s' => String (Text.lower a) (lower_string s')
  end.

Fixpoint index_of (x : string) (xs : list string) (i : Z) : option Z :=
  match xs with
  | [] => None
  | y :: ys => if String.eqb x y then Some i else index_of x ys (i + 1)
  end.

Definition rng (lo hi : ascii) : Re.regex := Re.Cls (Text.is_range lo hi).
Definition digit : Re.regex := Re.Cls Text.is_digit.
Definition chr (c : ascii) : Re.regex := Re.Cls (Text.is_char c).

(** [%d]: [(?P<d>3[0-1]|[1-2]\d|0[1-9]|[1-9]| [1-9])]. *)
Definition re_d : Re.regex :=
  Re.alts [ Re.Seq (chr "3") (rng "0" "1");
            Re.Seq (rng "1" "2") digit;
            Re.Seq (chr "0") (rng "1" "9");
            rng "1" "9";
            Re.Seq (chr " ") (rng "1" "9") ].

(** [%b]: the month abbreviations of the C locale, case-insensitive. *)
Definition re_b : Re.regex := Re.alts (map Re.lit_ci month_abbr).

(** [%Y]: [(?P<Y>\d\d\d\d)]. *)
Definition re_Y : Re.regex := Re.seqs [digit; digit; digit; digit].

(** [%I]: [(?P<I>1[0-2]|0[1-9]|[1-9])]. *)
Definition re_I : Re.regex :=
  Re.alts [ Re.Seq (chr "1") (rng "0" "2");
            Re.Seq (chr "0") (rng "1" "9");
            rng "1" "9" ].

(** [%M]: [(?P<M>[0-5]\d|\d)]. *)
Definition re_M : Re.regex := Re.Alt (Re.Seq (rng "0" "5") digit) digit.

(** [%p]: [(?P<p>am|pm)], case-insensitive. *)
Definition re_p : Re.regex := Re.Alt (Re.lit_ci "am") (Re.lit_ci "pm").

(** The pattern [strptime] compiles ["%d %b %Y"] to; a blank of the format
    is [\s+]. Groups: 1 = d, 2 = b, 3 = Y. *)
Definition re_d_b_Y : Re.regex :=
  Re.seqs [ Re.Group 1 re_d; Re.plus Text.is_space;
            Re.Group 2 re_b; Re.plus Text.is_space;
            Re.Group 3 re_Y ].

(** The pattern of ["%I:%M %p"]. Groups: 1 = I, 2 = M, 3 = p. *)
Definition re_I_M_p : Re.regex :=
  Re.seqs [ Re.Group 1 re_I; chr ":"; Re.Group 2 re_M;
            Re.plus Text.is_space; Re.Group 3 re_p ].

(** The common part of [_strptime]: the pattern must match at the start and
    leave nothing over, else ValueError. *)
Definition strptime_groups (r : Re.regex) (data : string) : M Re.caps :=
  match Re.re_match r data with
  | None => Raise ValueError
  | Some (rest, c) =>
      if String.eqb rest "" then Val c else Raise ValueError
  end.

(** [datetime.strptime(data, "%d %b %Y")]. *)
Definition strptime_d_b_Y (data : string) : M datetime :=
  c <- strptime_groups re_d_b_Y data ;;
  let d := Text.int_of (Re.group 1 c) in
  match index_of (lower_string (Re.group 2 c)) month_abbr 1 with
  | None => Raise ValueError
  | Some m => new_datetime (Text.int_of (Re.group 3 c)) m d 0 0
  end.

(** [datetime.strptime(data, "%I:%M %p")]: the date defaults to
    1900-01-01. *)
Definition strptime_I_M_p (data : string) : M datetime :=
  c <- strptime_groups re_I_M_p data ;;
  let h := Text.int_of (Re.group 1 c) in
  let mi := Text.int_of (Re.group 2 c) in
  let ampm := lower_string (Re.group 3 c) in
  let h' :=
    if String.eqb ampm "am" then (if h =? 12 then 0 else h)
    else if String.eqb ampm "pm" then (if h =? 12 then h else h + 12)
    else h in
  new_datetime 1900 1 1 h' mi.

(** [dt.strftime("%I:%M %p")] in the C locale. *)
Definition strftime_I_M_p (t : time) : string :=
  let h12 := if hour t mod 12 =? 0 then 12 else hour t mod 12 in
  Text.two_digits h12 ++ ":" ++ Text.two_digits (minute t) ++ " "
  ++ (if hour t <? 12 then "AM" else "PM").

End Datetime.

(** ** The scraper *)

(** An entry of [self.events]: the dict [parse_event_details] returns.
    [url] is the href of the row as it was read, [None] when the anchor
    had none. *)
Record event : Type := mkevent {
  name : string;
  datetime : Datetime.aware;
  url : option string;
  original_time : Datetime.aware
}.

(** A row of the club page as the loop of [scrape_club_events] reads it:
    the text and href of [a.group-event-title], the text of [.date] and of
    [.month]; [None] where the element is missing. The href is what
    [get_attribute('href')] returns: [None] for an anchor without one. *)
Record row : Type := mkrow {
  title_link : option (string * option string);
  date_elem : option string;
  month_elem : option string
}.

(** A row together with the two readings of [datetime.now()] taken while
    it is parsed. *)
Definition observed_row : Type :=
  (row * (Datetime.datetime * Datetime.datetime))%type.

(** icalendar components: properties in the order they were added. A
    text value is escaped when it is written, a URL value is written as it
    is. *)
Inductive value : Type :=
| VText (s : string)
| VUri (s : string)
| VAware (a : Datetime.aware)
| VUtc (d : Datetime.datetime).

Definition properties : Type := list (string * value).

Record calendar : Type := mkcalendar {
  cal_properties : properties;
  cal_events : list properties
}.

Fixpoint prop (key : string) (ps : properties) : option value :=
  match ps with
  | [] => None
  | (k, v) :: ps' => if String.eqb k key then Some v else prop key ps'
  end.

(** What [run] leaves behind: the calendar written to docs/calendar.ics,
    if one was written, and the value it returns. *)
Record run_result : Type := mkrun {
  written : option calendar;
  returned : bool
}.

Definition find_element {A : Type} (o : option A) : M A :=
  match o with
  | Some x => Val x
  | None => Raise NoSuchElementException
  end.

(** [try: body except ValueError: return None], inside a function whose
    result is an [option]. *)
Definition except_ValueError {A B : Type} (body : M A)
    (k : A -> M (option B)) : M (option B) :=
  match body with
  | Val a => k a
  | Raise ValueError => Val None
  | Raise e => Raise e
  end.

(** [try: body except Exception: return None]. *)
Definition except_Exception {B : Type} (body : M (option B)) : option B :=
  match body with
  | Val r => r
  | Raise _ => None
  end.

Definition pacific_zone : string := "America/Los_Angeles".

(** The uid of line 244: [f"{url.split('/')[-1]}@strava-scraper"]. *)
Definition event_uid (event_url : string) : string :=
  Text.last_item (Text.split "/" event_url) ++ "@strava-scraper".

(** [f"{x}"] of a value that is a string or None. *)
Definition str_of_optional (x : option string) : string :=
  match x with
  | Some s => s
  | None => "None"
  end.

(** The description of line 242. [chr 10] is the line feed. *)
Definition event_description (e : event) : string :=
  "Strava Event: " ++ str_of_optional (url e)
  ++ String (ascii_of_nat 10) "Ride starts at: "
  ++ Datetime.strftime_I_M_p (Datetime.time_of (Datetime.wall (original_time e))).

Definition calendar_header : properties :=
  [ ("prodid", VText "-//Strava Club Events//mxm.dk//");
    ("version", VText "2.0");
    ("calscale", VText "GREGORIAN");
    ("method", VText "PUBLISH");
    ("X-WR-CALNAME", VText "Strava Club Events");
    ("X-WR-TIMEZONE", VText "America/Los_Angeles") ].

(** [s.startswith(c)] for a one-character prefix. *)
Definition startswith (c : ascii) (s : string) : bool :=
  match s with
  | String a _ => Ascii.eqb a c
  | EmptyString => false
  end.

(** [load_club_urls]: [clubs_txt] is the lines of clubs.txt, each with its
    line end, or [None] when the file does not exist. *)
Definition load_club_urls (clubs_txt : option (list string)) : list string :=
  match clubs_txt with
  | None => []
  | Some lines =>
      map Text.strip
        (filter (fun line =>
                   negb (String.eqb (Text.strip line) "")
                   && negb (startswith "#" line)) lines)
  end.

(** A text that is empty or ends with a character outside [p]. *)
Definition ends_outside (p : ascii -> bool) (s : string) : Prop :=
  Re.starts_outside p (Text.rev_string "" s).

Section Scraper.

(** The UTC offset, in minutes, of the tzinfo that
    [pytz.timezone('America/Los_Angeles').localize] attaches to a wall-clock
    time. *)
Variable la_offset : Datetime.datetime -> Z.

(** Whether [icalendar] writes a URL value: [to_ical()] raises on one it
    cannot put on a content line, such as a URL with a line feed. *)
Variable uri_accepted : string -> bool.

Definition localize (dt : Datetime.datetime) : Datetime.aware :=
  Datetime.mkaware dt (Datetime.mktz pacific_zone (la_offset dt)).

(** Lines 172-182: the date of the event. [now1] is the reading whose year
    is [current_year], [now2] the one compared against. *)
Definition resolve_event_date (now1 now2 : Datetime.datetime)
    (date_text month_text : string) : M Datetime.datetime :=
  let current_year := Datetime.year (Datetime.date_of now1) in
  event_date <- Datetime.strptime_d_b_Y
    (date_text ++ " " ++ month_text ++ " " ++ Text.str_of_int current_year) ;;
  limit <- Datetime.sub now2 (Datetime.td_days 60) ;;
  if Datetime.lt event_date limit then
    Datetime.strptime_d_b_Y
      (date_text ++ " " ++ month_text ++ " "
       ++ Text.str_of_int (current_year + 1))
  else Val event_date.

Definition parse_event_details (now1 now2 : Datetime.datetime)
    (title_text date_text month_text : string) (event_url : option string)
    : option event :=
  except_Exception
    match Re.re_match title_pattern title_text with
    | None => Val None
    | Some (_, groups) =>
        let time_str := Re.group 2 groups in
        let am_pm := Re.group 3 groups in
        let event_name := Re.group 4 groups in
        except_ValueError
          (resolve_event_date now1 now2 date_text month_text)
          (fun event_date =>
        except_ValueError
          (Datetime.strptime_I_M_p (time_str ++ " " ++ am_pm))
          (fun time_obj =>
        let naive_datetime :=
          Datetime.combine (Datetime.date_of event_date)
                           (Datetime.time_of time_obj) in
        let event_datetime := localize naive_datetime in
        calendar_datetime <-
          Datetime.aware_sub event_datetime (Datetime.td_minutes 30) ;;
        Val (Some {| name := Text.strip event_name;
                     datetime := calendar_datetime;
                     url := event_url;
                     original_time := event_datetime |})))
    end.

(** The body of the row loop, lines 126-149, before its [except]. *)
Definition scrape_row (r : observed_row) : M (option event) :=
  let '(elems, (now1, now2)) := r in
  link <- find_element (title_link elems) ;;
  let title_text := Text.strip (fst link) in
  let event_url := snd link in
  date_e <- find_element (date_elem elems) ;;
  month_e <- find_element (month_elem elems) ;;
  let date_text := Text.strip date_e in
  let month_text := Text.strip month_e in
  Val (parse_event_details now1 now2 title_text date_text month_text
         event_url).

(** One turn of the loop: append the event, or go on to the next row. *)
Definition scrape_step (club_events : list event) (r : observed_row)
    : list event :=
  match scrape_row r with
  | Val (Some parsed_event) => (club_events ++ [parsed_event])%list
  | Val None => club_events
  | Raise _ => club_events
  end.

(** The row loop of [scrape_club_events], lines 123-155. *)
Definition scrape_club_events (event_rows : list observed_row) : list event :=
  fold_left scrape_step event_rows [].

(** [filter_events_by_date_range]: [now] is [datetime.now(self.pacific_tz)]. *)
Definition filter_events_by_date_range (now : Datetime.aware)
    (events : list event) : M (list event) :=
  four_weeks_later <- Datetime.aware_add now (Datetime.td_weeks 4) ;;
  Val (filter (fun e =>
                 Datetime.aware_le now (datetime e)
                 && Datetime.aware_le (datetime e) four_weeks_later)
              events).

(** The loop of [generate_ics_calendar], lines 237-247. [stamp i] is the
    reading of [datetime.now(pytz.UTC)] for the event at index [i]. Line
    241 raises when the end is past year 9999, line 244 when the event has
    no URL ([None] has no [split]). *)
Fixpoint add_events (stamp : nat -> Datetime.datetime) (i : nat)
    (events : list event) : M (list properties) :=
  match events with
  | [] => Val []
  | event_data :: rest =>
      dtend <- Datetime.aware_add (datetime event_data)
                 (Datetime.td_minutes 30) ;;
      event_url <- match url event_data with
                   | Some u => Val u
                   | None => Raise AttributeError
                   end ;;
      let entry :=
        [ ("summary", VText (name event_data));
          ("dtstart", VAware (datetime event_data));
          ("dtend", VAware dtend);
          ("description", VText (event_description event_data));
          ("url", VUri event_url);
          ("uid", VText (event_uid event_url));
          ("dtstamp", VUtc (stamp i)) ] in
      entries <- add_events stamp (S i) rest ;;
      Val (entry :: entries)
  end.

(** Can [to_ical()] write the entry? It refuses a URL value that
    [uri_accepted] rejects; text values are escaped and always written. *)
Definition entry_accepted (ps : properties) : bool :=
  forallb (fun kv => match snd kv with
                     | VUri u => uri_accepted u
                     | _ => true
                     end) ps.

(** [generate_ics_calendar]: the calendar whose [to_ical()] is written to
    docs/calendar.ics at line 255; [to_ical()] raises when it refuses an
    entry. *)
Definition generate_ics_calendar (stamp : nat -> Datetime.datetime)
    (events : list event) : M calendar :=
  entries <- add_events stamp 0 events ;;
  if forallb entry_accepted entries
  then Val (mkcalendar calendar_header entries)
  else Raise AssertionError.

(** Lines 309-313 of [run]: the events of the clubs, in order. *)
Definition collect_events (clubs : list (list observed_row)) : list event :=
  fold_left (fun events club => (events ++ scrape_club_events club)%list)
            clubs [].

(** [run] from line 304 on. [clubs] holds the rows of each club URL; with
    no club URL [run] returns False. Otherwise the events of all clubs are
    collected, filtered and, if any is left, written. An exception anywhere
    makes [run] return False. *)
Definition run (clubs : list (list observed_row)) (now : Datetime.aware)
    (stamp : nat -> Datetime.datetime) : run_result :=
  match clubs with
  | [] => mkrun None false
  | _ :: _ =>
      match
        (kept <- filter_events_by_date_range now (collect_events clubs) ;;
         match kept with
         | [] => Val None
         | _ :: _ =>
             cal <- generate_ics_calendar stamp kept ;; Val (Some cal)
         end)
      with
      | Val doc => mkrun doc true
      | Raise _ => mkrun None false
      end
  end.

End Scraper.

(** A stand-in for the zone table in examples: standard time all year. *)
Definition pst_only (_ : Datetime.datetime) : Z := -480.

(** A stand-in for what [icalendar] writes in examples: a URL without a
    line feed. *)
Definition one_line (u : string) : bool :=
  negb (Text.contains_char (ascii_of_nat 10) u).

Definition at_date (y m d H Mi : Z) : Datetime.datetime :=
  Datetime.combine (Datetime.mkdate y m d) (Datetime.mktime H Mi 0 0).

Definition at_pst (y m d H Mi : Z) : Datetime.aware :=
  Datetime.mkaware (at_date y m d H Mi) (Datetime.mktz pacific_zone (-480)).

(** The example of the specification: "Tue 6:30 AM / Group Ride" on
    15 Jun 2024. *)
Definition group_ride : event :=
  {| name := "Group Ride";
     datetime := at_pst 2024 6 15 6 0;
     url := Some "https://www.strava.com/clubs/1/group_events/12345";
     original_time := at_pst 2024 6 15 6 30 |}.

(** ** Definitions the proofs use *)

(** What follows the last character that is not a digit. *)
Fixpoint after_last_nondigit (s : string) : option string :=
  match s with
  | EmptyString => None
  | String a s' =>
      match after_last_nondigit s' with
      | Some t => Some t
      | None => if Text.is_digit a then None else Some s'
      end
  end.

(** The integers from [lo], [n] of them. *)
Fixpoint zrange (lo : Z) (n : nat) : list Z :=
  match n with
  | O => []
  | S k => lo :: zrange (lo + 1) k
  end.

(** [str] and [int] agree on [y]. *)
Definition decimal_ok (y : Z) : bool :=
  let s := Text.str_of_int y in
  Text.all_chars Text.is_digit s && (Text.int_of s =? y).

(** Does [r] hold midnight of the given day? *)
Definition is_midnight_of (y m d : Z) (r : M Datetime.datetime) : bool :=
  match r with
  | Val (Datetime.combine (Datetime.mkdate y' m' d') (Datetime.mktime H Mi Se us)) =>
      (y' =? y) && (m' =? m) && (d' =? d)
      && (H =? 0) && (Mi =? 0) && (Se =? 0) && (us =? 0)
  | Raise _ => false
  end.

Example title_match_1 :
  option_map snd (Re.re_match title_pattern "Tue 6:30 AM / Group Ride")
  = Some [(4%nat, "Group Ride"); (3%nat, "AM"); (2%nat, "6:30"); (1%nat, "Tue")].
Proof. reflexivity. Qed.

Example title_match_2 :
  Re.re_match title_pattern "Tue 6:30 AM - Group Ride" = None.
Proof. reflexivity. Qed.

Example title_match_3 :
  option_map snd (Re.re_match title_pattern "Tue 6:30 AM /  ")
  = Some [(4%nat, " "); (3%nat, "AM"); (2%nat, "6:30"); (1%nat, "Tue")].
Proof. reflexivity. Qed.

Example str_of_int_1 : Text.str_of_int 2025 = "2025" /\ Text.str_of_int 7 = "7"
  /\ Text.str_of_int 10000 = "10000" /\ Text.str_of_int 999 = "999".
Proof. repeat split; reflexivity. Qed.

Example ord_1 : Datetime.ymd2ord 2024 6 15 = 739052
  /\ Datetime.ord2ymd 739052 = (2024, 6, 15)
  /\ Datetime.ord2ymd 3652059 = (9999, 12, 31)
  /\ Datetime.ord2ymd 1 = (1, 1, 1)
  /\ Datetime.ord2ymd 738945 = (2024, 2, 29)
  /\ Datetime.ord2ymd 738885 = (2023, 12, 31).
Proof. repeat split; reflexivity. Qed.

Example strptime_1 :
  Datetime.strptime_d_b_Y "15 Jun 2024"
  = Val (Datetime.combine (Datetime.mkdate 2024 6 15) (Datetime.mktime 0 0 0 0))
  /\ Datetime.strptime_d_b_Y "29 Feb 2023" = Raise ValueError
  /\ Datetime.strptime_d_b_Y "5 Jan  2025"
     = Val (Datetime.combine (Datetime.mkdate 2025 1 5) (Datetime.mktime 0 0 0 0))
  /\ Datetime.strptime_d_b_Y "5 Jan 10000" = Raise ValueError
  /\ Datetime.strptime_I_M_p "6:30 AM"
     = Val (Datetime.combine (Datetime.mkdate 1900 1 1) (Datetime.mktime 6 30 0 0))
  /\ Datetime.strptime_I_M_p "12:05 AM"
     = Val (Datetime.combine (Datetime.mkdate 1900 1 1) (Datetime.mktime 0 5 0 0))
  /\ Datetime.strptime_I_M_p "12:05 PM"
     = Val (Datetime.combine (Datetime.mkdate 1900 1 1) (Datetime.mktime 12 5 0 0))
  /\ Datetime.strptime_I_M_p "7:45 PM"
     = Val (Datetime.combine (Datetime.mkdate 1900 1 1) (Datetime.mktime 19 45 0 0))
  /\ Datetime.strptime_I_M_p "13:30 PM" = Raise ValueError
  /\ Datetime.strptime_I_M_p "0:30 AM" = Raise ValueError
  /\ Datetime.strptime_I_M_p "6:75 AM" = Raise ValueError.
Proof. repeat split; reflexivity. Qed.

Example parse_1 :
  parse_event_details pst_only (at_date 2024 6 1 9 0) (at_date 2024 6 1 9 0)
    "Tue 6:30 AM / Group Ride" "15" "Jun"
    (Some "https://www.strava.com/clubs/1/group_events/12345")
  = Some group_ride.
Proof. vm_compute. reflexivity. Qed.

Example uid_1 :
  event_uid "https://www.strava.com/clubs/1/group_events/12345"
  = "12345@strava-scraper"
  /\ event_uid "https://www.strava.com/clubs/1/group_events/" = "@strava-scraper"
  /\ event_uid "12345" = "12345@strava-scraper".
Proof. repeat split; reflexivity. Qed.

(** * Facts about ranges *)

Module RangeFacts.

Lemma in_zrange y lo n : lo <= y < lo + Z.of_nat n -> In y (zrange lo n).
Proof.
  revert lo. induction n as [|n IH]; intros lo H; [lia|].
  cbn [zrange]. destruct (Z.eq_dec lo y); [now left|right].
  apply IH. lia.
Qed.

Lemma forallb_zrange (f : Z -> bool) lo n y :
  forallb f (zrange lo n) = true -> lo <= y < lo + Z.of_nat n -> f y = true.
Proof.
  intros A H. rewrite forallb_forall in A. now apply A, in_zrange.
Qed.

End RangeFacts.

(** * Facts about the matcher *)

Module ReFacts.
Import Re.

Lemma append_nil_r (s : string) : s ++ "" = s.
Proof. induction s; cbn; congruence. Qed.

Lemma append_assoc (a b c : string) : (a ++ b) ++ c = a ++ b ++ c.
Proof. induction a; cbn; congruence. Qed.

Lemma length_append (a b : string) :
  String.length (a ++ b) = (String.length a + String.length b)%nat.
Proof. induction a; cbn; congruence. Qed.

Lemma substring_prefix (w s : string) :
  substring 0 (String.length w) (w ++ s) = w.
Proof.
  induction w as [|a w IH]; cbn.
  - destruct s; reflexivity.
  - now rewrite IH.
Qed.

Lemma consumed_app (w s : string) : consumed (w ++ s) s = w.
Proof.
  unfold consumed. rewrite length_append.
  replace (String.length w + String.length s - String.length s)%nat
    with (String.length w) by lia.
  apply substring_prefix.
Qed.

Lemma rep_sound {A} p lo hi s (k : string -> option A) x :
  rep p lo hi s k = Some x ->
  exists w s',
    s = w ++ s' /\ Text.all_chars p w = true /\ (lo <= String.length w)%nat
    /\ within hi (String.length w) /\ k s' = Some x.
Proof.
  revert lo hi. induction s as [|a s IH]; intros lo hi H; cbn in H.
  - destruct lo; [|discriminate].
    exists "", "". cbn. destruct hi; cbn; repeat split; auto; lia.
  - assert (Stop : match lo with O => k (String a s) | S _ => None end = Some x ->
                   exists w s', String a s = w ++ s' /\ Text.all_chars p w = true
                     /\ (lo <= String.length w)%nat
                     /\ within hi (String.length w) /\ k s' = Some x).
    { intros E. destruct lo; [|discriminate].
      exists "", (String a s). cbn. destruct hi; cbn; repeat split; auto; lia. }
    destruct (p a) eqn:Pa; cbn [andb] in H; [|auto].
    destruct (hi_open hi) eqn:Ho; [|auto].
    destruct (rep p (Nat.pred lo) (hi_pred hi) s k) eqn:R; [|auto].
    injection H as ->.
    apply IH in R. destruct R as (w & s' & -> & Hw & Hlo & Hhi & Hk).
    exists (String a w), s'. cbn. rewrite Pa, Hw. repeat split; auto; try lia.
    destruct hi as [[|h]|]; cbn in *; try discriminate; auto; lia.
Qed.

Lemma rmatch_sound {A} r : forall s c (k : string -> caps -> option A) x,
  rmatch r s c k = Some x ->
  exists w s' c', s = w ++ s' /\ matches r w c c' /\ k s' c' = Some x.
Proof.
  induction r as [|p|r1 IH1 r2 IH2|r1 IH1 r2 IH2|p lo hi|i r IH];
    intros s c k x H; cbn in H.
  - exists "", s, c. cbn. repeat split; auto.
  - destruct s as [|a s]; [discriminate|].
    destruct (p a) eqn:Pa; [|discriminate].
    exists (String a ""), s, c. cbn. repeat split; eauto.
  - apply IH1 in H. destruct H as (w1 & s1 & c1 & -> & M1 & H).
    apply IH2 in H. destruct H as (w2 & s2 & c2 & -> & M2 & H).
    exists (w1 ++ w2), s2, c2. rewrite append_assoc. cbn.
    repeat split; eauto 10.
  - destruct (rmatch r1 s c k) eqn:R1.
    + injection H as ->. apply IH1 in R1.
      destruct R1 as (w & s' & c' & -> & M & Hk).
      exists w, s', c'. cbn. repeat split; auto.
    + apply IH2 in H. destruct H as (w & s' & c' & -> & M & Hk).
      exists w, s', c'. cbn. repeat split; auto.
  - apply rep_sound in H. destruct H as (w & s' & -> & Hw & Hlo & Hhi & Hk).
    exists w, s', c. cbn. repeat split; auto.
  - apply IH in H. destruct H as (w & s' & c' & -> & M & Hk).
    rewrite consumed_app in Hk.
    exists w, s', ((i, w) :: c'). cbn. repeat split; eauto.
Qed.

Lemma re_match_sound r s rest c :
  re_match r s = Some (rest, c) ->
  exists w, s = w ++ rest /\ matches r w [] c.
Proof.
  intros H. apply rmatch_sound in H.
  destruct H as (w & s' & c' & -> & M & E). injection E as -> ->. eauto.
Qed.

(** Transport of a match along a map of results and an extension of the
    groups. *)
Lemma rep_transport {A B} (f : A -> B) p lo hi s
    (k : string -> option A) (k' : string -> option B) :
  (forall t, k' t = option_map f (k t)) ->
  rep p lo hi s k' = option_map f (rep p lo hi s k).
Proof.
  intros Hk. revert lo hi. induction s as [|a s IH]; intros lo hi; cbn.
  - destruct lo; cbn; auto.
  - destruct (p a && hi_open hi).
    + rewrite IH. destruct (rep p (Nat.pred lo) (hi_pred hi) s k); cbn; auto.
      destruct lo; cbn; auto.
    + destruct lo; cbn; auto.
Qed.

Lemma rmatch_transport {A B} (f : A -> B) (c0 : caps) r :
  forall s c (k : string -> caps -> option A) (k' : string -> caps -> option B),
  (forall t d, k' t (d ++ c0)%list = option_map f (k t d)) ->
  rmatch r s (c ++ c0)%list k' = option_map f (rmatch r s c k).
Proof.
  induction r as [|p|r1 IH1 r2 IH2|r1 IH1 r2 IH2|p lo hi|i r IH];
    intros s c k k' Hk; cbn.
  - apply Hk.
  - destruct s as [|a s]; cbn; auto. destruct (p a); cbn; auto.
  - apply IH1. intros t d. now apply IH2.
  - rewrite (IH1 s c k k' Hk). destruct (rmatch r1 s c k); cbn; auto.
  - apply rep_transport. intros t. apply Hk.
  - apply IH. intros t d. apply (Hk t ((i, consumed s t) :: d)).
Qed.

Lemma rep_run {A} p lo w s (k : string -> option A) :
  Text.all_chars p w = true -> starts_outside p s ->
  (lo <= String.length w)%nat ->
  (forall a t, p a = true -> k (String a t) = None) ->
  rep p lo None (w ++ s) k = k s.
Proof.
  intros Hw Hs Hlo Hk. revert lo Hlo.
  induction w as [|a w IH]; intros lo Hlo; cbn in *.
  - assert (lo = 0%nat) as -> by lia.
    destruct s as [|a s]; cbn; auto. cbn in Hs. now rewrite Hs.
  - apply andb_prop in Hw. destruct Hw as [Pa Hw]. rewrite Pa. cbn.
    rewrite IH by (auto; lia).
    destruct (k s); auto. destruct lo; auto.
Qed.

Lemma group_app_other i j v c :
  i <> j -> group i (c ++ [(j, v)])%list = group i c.
Proof.
  intros N. induction c as [|[j' v'] c IH]; cbn.
  - destruct (Nat.eqb_spec i j); congruence.
  - now rewrite IH.
Qed.

End ReFacts.

(** * Matches that go through at the first try *)

Module TakeFacts.
Import Re ReFacts.

(** A greedy repetition takes the whole run when the rest goes through. *)
Lemma rep_take {A} p lo hi w s (k : string -> option A) x :
  Text.all_chars p w = true ->
  (lo <= String.length w)%nat -> within hi (String.length w) ->
  starts_outside p s \/ hi = Some (String.length w) ->
  k s = Some x ->
  rep p lo hi (w ++ s) k = Some x.
Proof.
  intros Hw Hlo Hhi Hs Hk. revert lo hi Hlo Hhi Hs.
  induction w as [|a w IH]; intros lo hi Hlo Hhi Hs; cbn in *.
  - assert (lo = 0%nat) as -> by lia.
    destruct s as [|a s]; cbn; [exact Hk|].
    destruct Hs as [Hs | ->]; cbn in *.
    + now rewrite Hs.
    + now rewrite andb_false_r.
  - apply andb_prop in Hw. destruct Hw as [Pa Hw]. rewrite Pa.
    assert (O : hi_open hi = true).
    { destruct hi as [[|n]|]; cbn in *; auto; lia. }
    rewrite O. cbn [andb].
    rewrite (IH Hw (Nat.pred lo) (hi_pred hi)); auto.
    + lia.
    + destruct hi as [n|]; cbn in *; auto; lia.
    + destruct Hs as [Hs | ->]; auto.
Qed.

(** [takes r w rest c c']: on [w ++ rest] the first thing the matcher does
    with [r] is to consume [w], turning the groups [c] into [c']; when the
    rest of the match goes through from there, that is the match. *)
Definition takes (r : regex) (w rest : string) (c c' : caps) : Prop :=
  forall (A : Type) (k : string -> caps -> option A) (x : A),
    k rest c' = Some x -> rmatch r (w ++ rest) c k = Some x.

Lemma takes_seq r1 r2 w1 w2 rest c c1 c2 :
  takes r1 w1 (w2 ++ rest) c c1 -> takes r2 w2 rest c1 c2 ->
  takes (Seq r1 r2) (w1 ++ w2) rest c c2.
Proof.
  intros T1 T2 A k x H. rewrite append_assoc. cbn [rmatch].
  apply T1. now apply T2.
Qed.

Lemma takes_group i r w rest c c1 :
  takes r w rest c c1 -> takes (Group i r) w rest c ((i, w) :: c1).
Proof.
  intros T A k x H. cbn [rmatch]. apply T. now rewrite consumed_app.
Qed.

Lemma takes_rep p lo hi w rest c :
  Text.all_chars p w = true ->
  (lo <= String.length w)%nat -> within hi (String.length w) ->
  starts_outside p rest \/ hi = Some (String.length w) ->
  takes (Rep p lo hi) w rest c c.
Proof.
  intros Hw Hlo Hhi Hs A k x H. cbn [rmatch]. now apply rep_take.
Qed.

Lemma takes_cls (p : ascii -> bool) a rest c :
  p a = true -> takes (Cls p) (String a "") rest c c.
Proof. intros Pa A k x H. cbn. now rewrite Pa. Qed.

Lemma takes_lit s rest c : takes (lit s) s rest c c.
Proof.
  induction s as [|a s IH]; intros A k x H; cbn [lit rmatch append].
  - exact H.
  - unfold Text.is_char. rewrite Ascii.eqb_refl. now apply IH.
Qed.

Lemma takes_alt_l r1 r2 w rest c c' :
  takes r1 w rest c c' -> takes (Alt r1 r2) w rest c c'.
Proof. intros T A k x H. cbn [rmatch]. now rewrite (T A k x H). Qed.

Lemma takes_alt_r r1 r2 w rest c c' :
  (forall A (k : string -> caps -> option A),
     rmatch r1 (w ++ rest) c k = None) ->
  takes r2 w rest c c' -> takes (Alt r1 r2) w rest c c'.
Proof. intros N T A k x H. cbn [rmatch]. rewrite N. now apply T. Qed.

(** A run of one class starts outside any class disjoint from it. *)
Lemma run_starts_outside (p q : ascii -> bool) w s :
  Text.all_chars q w = true -> w <> "" ->
  (forall a, q a = true -> p a = false) ->
  starts_outside p (w ++ s).
Proof.
  intros Hw N D. destruct w as [|a w]; [congruence|]. cbn in *.
  apply andb_prop in Hw. now apply D.
Qed.

End TakeFacts.

(** * Facts about the calendar *)

Module DatetimeFacts.
Import Datetime.

Lemma month_day_all :
  forallb (fun k => month_day_ok true (Z.of_nat k) && month_day_ok false (Z.of_nat k)) (seq 0 365) = true.
Proof. vm_compute. reflexivity. Qed.

Lemma month_day_spec leap n : 0 <= n < 365 -> month_day_ok leap n = true.
Proof.
  intros H. pose proof month_day_all as A. rewrite forallb_forall in A.
  specialize (A (Z.to_nat n)). rewrite Z2Nat.id in A by lia.
  assert (I : In (Z.to_nat n) (seq 0 365)) by (apply in_seq; lia).
  apply A in I. apply andb_prop in I. destruct leap; tauto.
Qed.

Lemma is_leap_decomp a b c d :
  0 <= b < 4 -> 0 <= c < 25 -> 0 <= d < 4 ->
  is_leap (400 * a + 100 * b + 4 * c + d + 1) = (d =? 3) && (negb (c =? 24) || (b =? 3)).
Proof.
  intros Hb Hc Hd. unfold is_leap.
  destruct (Z.eqb_spec d 3), (Z.eqb_spec c 24), (Z.eqb_spec b 3); cbn [andb orb negb];
  repeat match goal with |- context [?x =? ?y] => destruct (Z.eqb_spec x y) end; cbn; try reflexivity;
  exfalso; Z.to_euclidean_division_equations; lia.
Qed.

Lemma days_before_year_decomp a b c d :
  0 <= b < 4 -> 0 <= c < 25 -> 0 <= d < 4 ->
  days_before_year (400 * a + 100 * b + 4 * c + d + 1) = 146097 * a + 36524 * b + 1461 * c + 365 * d.
Proof.
  intros. unfold days_before_year. Z.to_euclidean_division_equations. lia.
Qed.

Lemma ord2ymd_decomp n :
  1 <= n ->
  exists a b c d r,
    n - 1 = 146097 * a + 36524 * b + 1461 * c + 365 * d + r /\
    0 <= a /\ 0 <= b <= 4 /\ 0 <= c < 25 /\ 0 <= d <= 4 /\ 0 <= r < 365 /\
    (b = 4 -> c = 0 /\ d = 0 /\ r = 0) /\ (d = 4 -> r = 0) /\
    (d = 4 -> b < 4 -> c < 24) /\
    ord2ymd n =
      if (d =? 4) || (b =? 4) then (400 * a + 100 * b + 4 * c + d, 12, 31)
      else
        let leap := (d =? 3) && (negb (c =? 24) || (b =? 3)) in
        let '(m, dd) := month_day leap r in
        (400 * a + 100 * b + 4 * c + d + 1, m, dd).
Proof.
  intros Hn.
  exists ((n - 1) / DI400Y), ((n - 1) mod DI400Y / DI100Y),
    ((n - 1) mod DI400Y mod DI100Y / DI4Y),
    ((n - 1) mod DI400Y mod DI100Y mod DI4Y / 365),
    ((n - 1) mod DI400Y mod DI100Y mod DI4Y mod 365).
  unfold DI400Y, DI100Y, DI4Y.
  repeat split; try (Z.to_euclidean_division_equations; lia).
  unfold ord2ymd, month_day, DI400Y, DI100Y, DI4Y. cbv zeta.
  set (a := (n - 1) / 146097). set (r1 := (n - 1) mod 146097).
  set (b := r1 / 36524). set (r2 := r1 mod 36524).
  set (c := r2 / 1461). set (r3 := r2 mod 1461).
  set (d := r3 / 365). set (r := r3 mod 365).
  destruct ((d =? 4) || (b =? 4)).
  - f_equal. f_equal. lia.
  - destruct (r <? _); f_equal; f_equal; lia.
Qed.

Lemma days_before_month_leap y m : days_before_month y m = dbm (is_leap y) m.
Proof. reflexivity. Qed.

Lemma days_in_month_leap y m : days_in_month y m = dim (is_leap y) m.
Proof. reflexivity. Qed.

Lemma ord2ymd_ok n : 1 <= n -> ord_ok n (ord2ymd n).
Proof.
  intros Hn.
  destruct (ord2ymd_decomp n Hn)
    as (a & b & c & d & r & E & Ha & Hb & Hc & Hd & Hr & B4 & D4 & D4' & ->).
  destruct (Z.eqb_spec d 4) as [->|Nd]; cbn [orb].
  - (* the last day of a leap year, fourth year of a cycle *)
    destruct (Z.eq_dec b 4) as [->|Nb].
    + destruct (B4 eq_refl) as (? & ? & _). lia.
    + specialize (D4 eq_refl). specialize (D4' eq_refl ltac:(lia)).
      unfold ord_ok, ymd2ord, MAXORDINAL, MAXYEAR.
      rewrite days_before_month_leap, days_in_month_leap.
      replace (400 * a + 100 * b + 4 * c + 4)
        with (400 * a + 100 * b + 4 * c + 3 + 1) by lia.
      rewrite is_leap_decomp, days_before_year_decomp by lia.
      replace (c =? 24) with false by (symmetry; apply Z.eqb_neq; lia).
      change (3 =? 3) with true. change (24 =? 24) with true.
      cbn [andb orb negb].
      change (dbm true 12) with 335. change (dim true 12) with 31. lia.
  - destruct (Z.eqb_spec b 4) as [->|Nb].
    + (* the last day of a 400-year cycle *)
      destruct (B4 eq_refl) as (-> & -> & ->).
      unfold ord_ok, ymd2ord, MAXORDINAL, MAXYEAR.
      rewrite days_before_month_leap, days_in_month_leap.
      replace (400 * a + 100 * 4 + 4 * 0 + 0)
        with (400 * a + 100 * 3 + 4 * 24 + 3 + 1) by lia.
      rewrite is_leap_decomp, days_before_year_decomp by lia.
      change (3 =? 3) with true. change (24 =? 24) with true.
      cbn [andb orb negb].
      change (dbm true 12) with 335. change (dim true 12) with 31. lia.
    + set (leap := (d =? 3) && (negb (c =? 24) || (b =? 3))).
      pose proof (month_day_spec leap r Hr) as MD.
      unfold month_day_ok in MD.
      destruct (month_day leap r) as [m dd].
      unfold ord_ok, ymd2ord, MAXORDINAL, MAXYEAR.
      rewrite days_before_month_leap, days_in_month_leap.
      rewrite is_leap_decomp, days_before_year_decomp by lia.
      fold leap.
      repeat (apply andb_prop in MD; destruct MD as [MD ?]).
      lia.
Qed.

Lemma toordinal_fromordinal n : 1 <= n -> toordinal (fromordinal n) = n.
Proof.
  intros Hn. pose proof (ord2ymd_ok n Hn) as H.
  unfold fromordinal, toordinal. destruct (ord2ymd n) as [[y m] d].
  cbn. apply H.
Qed.

Lemma fromordinal_valid n :
  1 <= n <= MAXORDINAL -> valid_date (fromordinal n) = true.
Proof.
  intros Hn. pose proof (ord2ymd_ok n ltac:(lia)) as H.
  unfold fromordinal, valid_date. destruct (ord2ymd n) as [[y m] d].
  cbn in *. unfold MINYEAR.
  destruct H as (_ & Hm & Hd & Hy & Hmax). specialize (Hmax ltac:(lia)).
  repeat (apply andb_true_intro; split); lia.
Qed.

(** The window of the time line [add] can land in. *)
Definition representable (t : Z) : Prop :=
  US_PER_DAY <= t < (MAXORDINAL + 1) * US_PER_DAY.

Lemma add_spec dt td dt' :
  add dt td = Val dt' ->
  to_micros dt' = to_micros dt + td /\ valid_datetime dt' = true
  /\ representable (to_micros dt + td).
Proof.
  unfold add, representable. cbv zeta.
  set (delta := to_micros dt + td).
  destruct (Z.ltb_spec 0 (delta / US_PER_DAY)) as [L|]; [|discriminate].
  destruct (Z.leb_spec (delta / US_PER_DAY) MAXORDINAL) as [U|]; [|discriminate].
  cbn [andb]. intros E. injection E as <-.
  unfold to_micros, valid_datetime, valid_time, time_micros.
  cbn [date_of time_of hour minute second microsecond].
  rewrite toordinal_fromordinal, fromordinal_valid by lia.
  unfold US_PER_DAY, US_PER_SECOND, MAXORDINAL in *.
  repeat split.
  - Z.to_euclidean_division_equations; lia.
  - cbn [andb]. repeat (apply andb_true_intro; split);
      first [apply Z.leb_le | apply Z.ltb_lt];
      Z.to_euclidean_division_equations; lia.
  - Z.to_euclidean_division_equations; lia.
  - Z.to_euclidean_division_equations; lia.
Qed.

Lemma add_returns dt td :
  representable (to_micros dt + td) -> exists dt', add dt td = Val dt'.
Proof.
  unfold add, representable. cbv zeta. intros H.
  set (delta := to_micros dt + td) in *.
  assert (0 < delta / US_PER_DAY <= MAXORDINAL) as [L U].
  { unfold US_PER_DAY, US_PER_SECOND, MAXORDINAL in *.
    Z.to_euclidean_division_equations; lia. }
  apply Z.ltb_lt in L. apply Z.leb_le in U. rewrite L, U. cbn. eauto.
Qed.

Lemma add_raises dt td :
  ~ representable (to_micros dt + td) -> add dt td = Raise OverflowError.
Proof.
  intros H. destruct (add dt td) as [dt'|e] eqn:E.
  - apply add_spec in E. tauto.
  - unfold add in E. cbv zeta in E.
    destruct (_ && _); [discriminate|]. congruence.
Qed.

Lemma days_before_year_succ y :
  days_before_year (y + 1)
  = days_before_year y + (if is_leap y then 366 else 365).
Proof.
  unfold days_before_year, is_leap. cbv zeta.
  replace (y + 1 - 1) with (y - 1 + 1) by lia.
  destruct (Z.eqb_spec (y mod 4) 0), (Z.eqb_spec (y mod 100) 0),
    (Z.eqb_spec (y mod 400) 0); cbn [andb orb negb];
    Z.to_euclidean_division_equations; lia.
Qed.

Lemma days_before_year_mono y y' :
  y <= y' -> days_before_year y <= days_before_year y'.
Proof.
  unfold days_before_year. cbv zeta. intros.
  Z.to_euclidean_division_equations; lia.
Qed.

Lemma valid_date_month d :
  valid_date d = true ->
  MINYEAR <= year d <= MAXYEAR /\
  In (month d) [1; 2; 3; 4; 5; 6; 7; 8; 9; 10; 11; 12] /\
  1 <= day d <= days_in_month (year d) (month d).
Proof.
  unfold valid_date. intros H.
  repeat (apply andb_prop in H; destruct H as [H ?]).
  repeat split; try lia. cbn.
  assert (1 <= month d <= 12) by lia. lia.
Qed.

Lemma dbm_dim leap m :
  In m [1; 2; 3; 4; 5; 6; 7; 8; 9; 10; 11; 12] ->
  0 <= dbm leap m /\ dbm leap m + dim leap m <= (if leap then 366 else 365).
Proof.
  intros H. cbn in H.
  destruct leap; repeat destruct H as [<-|H]; try contradiction;
    vm_compute; split; discriminate.
Qed.

Lemma toordinal_bounds d :
  valid_date d = true ->
  days_before_year (year d) + 1 <= toordinal d
  <= days_before_year (year d + 1).
Proof.
  intros V. apply valid_date_month in V. destruct V as (_ & Hm & Hd).
  rewrite days_before_year_succ. unfold toordinal, ymd2ord.
  rewrite days_before_month_leap. rewrite days_in_month_leap in Hd.
  pose proof (dbm_dim (is_leap (year d)) (month d) Hm) as B.
  destruct (is_leap (year d)); lia.
Qed.

Lemma valid_time_micros t :
  valid_time t = true -> 0 <= time_micros t < US_PER_DAY.
Proof.
  unfold valid_time, time_micros, US_PER_DAY, US_PER_SECOND. intros H.
  repeat (apply andb_prop in H; destruct H as [H ?]). lia.
Qed.

(** A valid datetime lies inside its year on the time line. *)
Lemma to_micros_bounds dt :
  valid_datetime dt = true ->
  (days_before_year (year (date_of dt)) + 1) * US_PER_DAY <= to_micros dt
  < (days_before_year (year (date_of dt) + 1) + 1) * US_PER_DAY.
Proof.
  unfold valid_datetime, to_micros. intros H.
  apply andb_prop in H. destruct H as [Hd Ht].
  apply toordinal_bounds in Hd. apply valid_time_micros in Ht.
  unfold US_PER_DAY, US_PER_SECOND in *. lia.
Qed.

Lemma valid_representable dt :
  valid_datetime dt = true -> representable (to_micros dt).
Proof.
  intros V. pose proof (to_micros_bounds dt V) as B.
  unfold valid_datetime in V. apply andb_prop in V. destruct V as [Vd _].
  apply valid_date_month in Vd. destruct Vd as ([Y1 Y2] & _).
  unfold MINYEAR, MAXYEAR in *.
  pose proof (days_before_year_mono 1 (year (date_of dt)) Y1) as M1.
  pose proof (days_before_year_mono (year (date_of dt) + 1) 10000
                ltac:(lia)) as M2.
  change (days_before_year 1) with 0 in M1.
  change (days_before_year 10000) with 3652059 in M2.
  unfold representable, MAXORDINAL, US_PER_DAY, US_PER_SECOND in *. lia.
Qed.

(** Up to a year forward from a datetime before year 9999 stays
    representable, and so does anything back to year 2. *)
Lemma representable_forward dt td :
  valid_datetime dt = true -> year (date_of dt) <= 9998 ->
  0 <= td <= 365 * US_PER_DAY ->
  representable (to_micros dt + td).
Proof.
  intros V Y T. pose proof (to_micros_bounds dt V) as B.
  pose proof (valid_representable dt V) as R.
  pose proof (days_before_year_mono (year (date_of dt) + 1) 9999
                ltac:(lia)) as M2.
  change (days_before_year 9999) with 3651694 in M2.
  unfold representable, MAXORDINAL, US_PER_DAY, US_PER_SECOND in *. lia.
Qed.

Lemma representable_backward dt td :
  valid_datetime dt = true -> 2 <= year (date_of dt) ->
  0 <= td <= 365 * US_PER_DAY ->
  representable (to_micros dt - td).
Proof.
  intros V Y T. pose proof (to_micros_bounds dt V) as B.
  pose proof (valid_representable dt V) as R.
  pose proof (days_before_year_mono 2 (year (date_of dt)) Y) as M1.
  change (days_before_year 2) with 365 in M1.
  unfold representable, MAXORDINAL, US_PER_DAY, US_PER_SECOND in *. lia.
Qed.

End DatetimeFacts.

(** * Facts about the scraper *)

Section ScraperFacts.

Variable la_offset : Datetime.datetime -> Z.

(** What a successful parse went through. *)
Lemma parse_event_details_inv now1 now2 title_text date_text month_text
    event_url ev :
  parse_event_details la_offset now1 now2 title_text date_text month_text
    event_url = Some ev ->
  exists rest groups event_date time_obj calendar_datetime,
    Re.re_match title_pattern title_text = Some (rest, groups)
    /\ resolve_event_date now1 now2 date_text month_text = Val event_date
    /\ Datetime.strptime_I_M_p
         (Re.group 2 groups ++ " " ++ Re.group 3 groups) = Val time_obj
    /\ Datetime.aware_sub
         (localize la_offset
            (Datetime.combine (Datetime.date_of event_date)
                              (Datetime.time_of time_obj)))
         (Datetime.td_minutes 30) = Val calendar_datetime
    /\ ev = {| name := Text.strip (Re.group 4 groups);
               datetime := calendar_datetime;
               url := event_url;
               original_time :=
                 localize la_offset
                   (Datetime.combine (Datetime.date_of event_date)
                                     (Datetime.time_of time_obj)) |}.
Proof.
  unfold parse_event_details.
  destruct (Re.re_match title_pattern title_text) as [[rest groups]|];
    [|discriminate].
  destruct (resolve_event_date now1 now2 date_text month_text)
    as [event_date|[]]; cbn [except_ValueError except_Exception];
    try discriminate.
  destruct (Datetime.strptime_I_M_p _) as [time_obj|[]] eqn:T;
    cbn [except_ValueError except_Exception]; try discriminate.
  destruct (Datetime.aware_sub _ _) as [calendar_datetime|] eqn:S;
    cbn [bind except_Exception]; [|discriminate].
  intros E. injection E as <-.
  exists rest, groups, event_date, time_obj, calendar_datetime.
  repeat split; auto.
Qed.

End ScraperFacts.

Module AwareFacts.
Import Datetime DatetimeFacts.

Lemma tzinfo_eqb_eq a b : tzinfo_eqb a b = true -> a = b.
Proof.
  unfold tzinfo_eqb. intros H. apply andb_prop in H. destruct H as [Hz Ho].
  apply String.eqb_eq in Hz. apply Z.eqb_eq in Ho.
  destruct a, b; cbn in *; congruence.
Qed.

(** Whichever branch the comparison takes, it compares instants. *)
Lemma aware_le_utc a b : aware_le a b = (utc_micros a <=? utc_micros b).
Proof.
  unfold aware_le. destruct (tzinfo_eqb (tz a) (tz b)) eqn:E; [|reflexivity].
  apply tzinfo_eqb_eq in E. unfold le, utc_micros. rewrite E.
  destruct (Z.leb_spec (to_micros (wall a)) (to_micros (wall b))),
    (Z.leb_spec (to_micros (wall a) - td_minutes (utcoffset (tz b)))
                (to_micros (wall b) - td_minutes (utcoffset (tz b))));
    auto; lia.
Qed.

Lemma aware_diff_utc a b : aware_diff a b = utc_micros a - utc_micros b.
Proof.
  unfold aware_diff. destruct (tzinfo_eqb (tz a) (tz b)) eqn:E; [|reflexivity].
  apply tzinfo_eqb_eq in E. unfold diff, utc_micros. rewrite E. lia.
Qed.

Lemma aware_add_spec a td b :
  aware_add a td = Val b ->
  tz b = tz a /\ to_micros (wall b) = to_micros (wall a) + td
  /\ utc_micros b = utc_micros a + td /\ valid_datetime (wall b) = true.
Proof.
  unfold aware_add. destruct (add (wall a) td) as [w|] eqn:E; cbn;
    [|discriminate].
  intros H. injection H as <-. apply add_spec in E.
  unfold utc_micros. cbn. destruct E as (E & V & _). rewrite E.
  repeat split; auto; lia.
Qed.

End AwareFacts.

(** * The claims *)

Section Claims.

Variable la_offset : Datetime.datetime -> Z.

(** C2. Every event the parser returns has its calendar time exactly 30
    minutes before the advertised ride time, whether the two are
    subtracted as Python does or as instants, and both carry the same
    tzinfo, which is one of America/Los_Angeles. *)
Theorem parsed_event_starts_30_minutes_early
    now1 now2 title_text date_text month_text event_url ev :
  parse_event_details la_offset now1 now2 title_text date_text month_text
    event_url = Some ev ->
  Datetime.aware_diff (original_time ev) (datetime ev)
    = Datetime.td_minutes 30
  /\ Datetime.utc_micros (original_time ev)
     - Datetime.utc_micros (datetime ev) = 30 * 60 * 1000000
  /\ Datetime.tz (datetime ev) = Datetime.tz (original_time ev)
  /\ Datetime.zone (Datetime.tz (original_time ev)) = pacific_zone
  /\ Datetime.zone (Datetime.tz (datetime ev)) = pacific_zone.
Proof.
  intros H. apply parse_event_details_inv in H.
  destruct H as (rest & groups & event_date & time_obj & cal & _ & _ & _
                 & S & ->).
  cbn [original_time datetime].
  apply AwareFacts.aware_add_spec in S. destruct S as (Tz & _ & U & _).
  rewrite AwareFacts.aware_diff_utc, U, Tz.
  unfold Datetime.td_minutes, Datetime.US_PER_SECOND, localize.
  cbn [Datetime.tz Datetime.zone].
  repeat split; lia.
Qed.

End Claims.

(** The filter, when it returns, as a filter on instants. *)
Lemma filter_events_by_date_range_eq (now : Datetime.aware)
    (events : list event) :
  Datetime.valid_datetime (Datetime.wall now) = true ->
  Datetime.year (Datetime.date_of (Datetime.wall now)) <= 9998 ->
  filter_events_by_date_range now events
  = Val (filter (fun e =>
                   (Datetime.utc_micros now
                    <=? Datetime.utc_micros (datetime e))
                   && (Datetime.utc_micros (datetime e)
                       <=? Datetime.utc_micros now + Datetime.td_weeks 4))
                events).
Proof.
  intros V Y.
  assert (R : DatetimeFacts.representable
                (Datetime.to_micros (Datetime.wall now)
                 + Datetime.td_weeks 4)).
  { apply DatetimeFacts.representable_forward; auto.
    unfold Datetime.td_weeks, Datetime.US_PER_DAY, Datetime.US_PER_SECOND.
    lia. }
  apply DatetimeFacts.add_returns in R. destruct R as [w Hw].
  unfold filter_events_by_date_range.
  assert (A : Datetime.aware_add now (Datetime.td_weeks 4)
              = Val (Datetime.mkaware w (Datetime.tz now))).
  { unfold Datetime.aware_add. now rewrite Hw. }
  rewrite A. cbn [bind]. f_equal.
  apply AwareFacts.aware_add_spec in A. destruct A as (_ & _ & U & _).
  apply filter_ext. intros e. now rewrite !AwareFacts.aware_le_utc, U.
Qed.

(** C3. The date-range filter keeps an event exactly when its start is at
    or after [now] and at or before [now] plus four weeks, both bounds
    included, and it keeps the events in their order. So an event three
    weeks ahead is kept, one five weeks ahead or one day back is dropped.
    The filter returns whenever [now] is a valid time before year 9999. *)
Theorem filter_keeps_four_week_window (now : Datetime.aware)
    (events : list event) :
  Datetime.valid_datetime (Datetime.wall now) = true ->
  Datetime.year (Datetime.date_of (Datetime.wall now)) <= 9998 ->
  let start e := Datetime.utc_micros (datetime e) in
  let T := Datetime.utc_micros now in
  exists kept,
    filter_events_by_date_range now events = Val kept
    /\ kept = filter (fun e => (T <=? start e)
                               && (start e <=? T + Datetime.td_weeks 4))
                events
    /\ Datetime.td_weeks 4 = 28 * 86400 * 1000000
    /\ (forall e, In e kept <->
                  In e events /\ T <= start e <= T + Datetime.td_weeks 4)
    /\ (forall e, In e events -> start e = T + Datetime.td_weeks 3 ->
                  In e kept)
    /\ (forall e, start e = T + Datetime.td_weeks 5 -> ~ In e kept)
    /\ (forall e, start e = T - Datetime.td_days 1 -> ~ In e kept)
    /\ (forall e, In e events -> start e = T -> In e kept)
    /\ (forall e, In e events -> start e = T + Datetime.td_weeks 4 ->
                  In e kept).
Proof.
  intros V Y start T.
  rewrite (filter_events_by_date_range_eq now events V Y).
  fold T. eexists. split; [reflexivity|]. split; [reflexivity|].
  assert (I : forall e,
             In e (filter (fun e => (T <=? start e)
                                    && (start e <=? T + Datetime.td_weeks 4))
                          events)
             <-> In e events /\ T <= start e <= T + Datetime.td_weeks 4).
  { intros e. rewrite filter_In, andb_true_iff, Z.leb_le, Z.leb_le. tauto. }
  unfold Datetime.td_weeks, Datetime.td_days, Datetime.US_PER_DAY,
    Datetime.US_PER_SECOND in *.
  split; [reflexivity|]. split; [exact I|].
  repeat split; intros e;
    first [ intros ? ?; apply I; split; [assumption|lia]
          | intros ? HI; apply I in HI; lia ].
Qed.

Lemma parsed_event_starts_30_minutes_early_witness :
  Datetime.aware_diff (original_time group_ride) (datetime group_ride)
  = Datetime.td_minutes 30.
Proof.
  refine (proj1 (parsed_event_starts_30_minutes_early pst_only
                   (at_date 2024 6 1 9 0) (at_date 2024 6 1 9 0)
                   "Tue 6:30 AM / Group Ride" "15" "Jun"
                   (Some "https://www.strava.com/clubs/1/group_events/12345")
                   group_ride _)).
  vm_compute. reflexivity.
Defined.

Lemma filter_keeps_four_week_window_witness :
  exists kept,
    filter_events_by_date_range (at_pst 2024 6 1 9 0) [group_ride] = Val kept
    /\ In group_ride kept.
Proof.
  destruct (filter_keeps_four_week_window (at_pst 2024 6 1 9 0) [group_ride])
    as (kept & E & _ & _ & I & _).
  - vm_compute. reflexivity.
  - cbn. lia.
  - exists kept. split; [exact E|].
    apply I. split; [left; reflexivity|]. vm_compute. split; discriminate.
Defined.

(** * Facts about text *)

Module TextFacts.
Import Text ReFacts.

Lemma rev_string_app acc s : rev_string acc s = rev_string "" s ++ acc.
Proof.
  revert acc. induction s as [|a s IH]; intros acc; cbn; [reflexivity|].
  rewrite IH, (IH (String a "")), append_assoc. reflexivity.
Qed.

Lemma rev_string_rev acc s :
  rev_string "" (rev_string acc s) = rev_string "" acc ++ s.
Proof.
  revert acc. induction s as [|a s IH]; intros acc; cbn.
  - now rewrite append_nil_r.
  - rewrite IH. cbn. rewrite (rev_string_app (String a "")), append_assoc.
    reflexivity.
Qed.

Lemma split_go_nonempty sep cur s : split_go sep cur s <> [].
Proof.
  revert cur. induction s as [|a s IH]; intros cur; cbn; [discriminate|].
  destruct (Ascii.eqb a sep); [discriminate|apply IH].
Qed.

(** Without a separator there is one piece. *)
Lemma split_go_plain sep cur s :
  contains_char sep s = false ->
  split_go sep cur s = [rev_string "" cur ++ s].
Proof.
  revert cur. induction s as [|a s IH]; intros cur H; cbn in *.
  - now rewrite append_nil_r.
  - apply orb_false_elim in H. destruct H as [Ha Hs]. rewrite Ha.
    rewrite IH by assumption. cbn.
    rewrite (rev_string_app (String a "")), append_assoc. reflexivity.
Qed.

(** The last piece is what follows the last separator. *)
Lemma split_go_last sep cur pre seg :
  contains_char sep seg = false ->
  List.last (split_go sep cur (pre ++ String sep seg)) "" = seg.
Proof.
  intros H. revert cur. induction pre as [|a pre IH]; intros cur; cbn.
  - rewrite Ascii.eqb_refl. rewrite split_go_plain by assumption. reflexivity.
  - destruct (Ascii.eqb a sep).
    + specialize (IH "").
      destruct (split_go sep "" (pre ++ String sep seg)) eqn:E; [|exact IH].
      now apply split_go_nonempty in E.
    + apply IH.
Qed.

Lemma last_item_split sep pre seg :
  contains_char sep seg = false ->
  last_item (split sep (pre ++ String sep seg)) = seg.
Proof. apply split_go_last. Qed.

Lemma last_item_split_plain sep s :
  contains_char sep s = false -> last_item (split sep s) = s.
Proof.
  intros H. unfold last_item, split. now rewrite split_go_plain.
Qed.

Lemma occurs_in_middle pre s post : occurs_in s (pre ++ s ++ post).
Proof. now exists pre, post. Qed.

Lemma occurs_in_end pre s : occurs_in s (pre ++ s).
Proof. exists pre, "". now rewrite append_nil_r. Qed.

End TextFacts.

(** The uid is the last path segment and the fixed suffix. *)
Lemma event_uid_last_segment pre seg :
  Text.contains_char "/" seg = false ->
  event_uid (pre ++ "/" ++ seg) = seg ++ "@strava-scraper".
Proof.
  intros H. unfold event_uid.
  change (pre ++ "/" ++ seg) with (pre ++ String "/" seg).
  now rewrite TextFacts.last_item_split.
Qed.

Lemma event_uid_plain u :
  Text.contains_char "/" u = false -> event_uid u = u ++ "@strava-scraper".
Proof.
  intros H. unfold event_uid. now rewrite TextFacts.last_item_split_plain.
Qed.

(** An event [to_ical()] can write: it has a URL, and one [icalendar]
    takes. *)
Definition has_accepted_url (uri_accepted : string -> bool) (e : event)
    : bool :=
  match url e with
  | Some u => uri_accepted u
  | None => false
  end.

(** Whether the loop of [generate_ics_calendar] returns, and every property
    but dtstamp, does not depend on the clock. *)
Lemma add_events_uid stamp i events entries :
  add_events stamp i events = Val entries ->
  map (prop "uid") entries
  = map (fun e => option_map (fun u => VText (event_uid u)) (url e)) events.
Proof.
  revert i entries. induction events as [|e events IH]; intros i entries H;
    cbn [add_events] in H.
  - injection H as <-. reflexivity.
  - destruct (Datetime.aware_add (datetime e) (Datetime.td_minutes 30))
      as [dtend|]; cbn [bind] in H; [|discriminate].
    destruct (url e) as [u|] eqn:U; cbn [bind] in H; [|discriminate].
    destruct (add_events stamp (S i) events) as [rest|] eqn:R;
      cbn [bind] in H; [|discriminate].
    injection H as <-. cbn [map]. rewrite U. cbn [option_map].
    f_equal. eauto.
Qed.

Lemma add_events_returns stamp1 stamp2 i j events entries :
  add_events stamp1 i events = Val entries ->
  exists entries', add_events stamp2 j events = Val entries'.
Proof.
  revert i j entries. induction events as [|e events IH];
    intros i j entries H; cbn [add_events] in *.
  - eauto.
  - destruct (Datetime.aware_add (datetime e) (Datetime.td_minutes 30))
      as [dtend|]; cbn [bind] in *; [|discriminate H].
    destruct (url e) as [u|]; cbn [bind] in *; [|discriminate H].
    destruct (add_events stamp1 (S i) events) as [rest|] eqn:R;
      cbn [bind] in H; [|discriminate H].
    destruct (IH (S i) (S j) rest R) as [rest' ->]. cbn [bind]. eauto.
Qed.

(** The loop returns only on events that all have a URL. *)
Lemma add_events_urls stamp i events entries :
  add_events stamp i events = Val entries ->
  Forall (fun e => exists u, url e = Some u) events.
Proof.
  revert i entries. induction events as [|e events IH]; intros i entries H;
    cbn [add_events] in H; constructor.
  - destruct (Datetime.aware_add (datetime e) (Datetime.td_minutes 30));
      cbn [bind] in H; [|discriminate].
    destruct (url e) as [u|]; [eauto|discriminate].
  - destruct (Datetime.aware_add (datetime e) (Datetime.td_minutes 30));
      cbn [bind] in H; [|discriminate].
    destruct (url e) as [u|]; cbn [bind] in H; [|discriminate].
    destruct (add_events stamp (S i) events) as [rest|] eqn:R;
      cbn [bind] in H; [|discriminate]. eauto.
Qed.

(** What [to_ical()] takes of the entries is what the events' URLs are. *)
Lemma add_events_accepted uri_accepted stamp i events entries :
  add_events stamp i events = Val entries ->
  forallb (entry_accepted uri_accepted) entries
  = forallb (has_accepted_url uri_accepted) events.
Proof.
  revert i entries. induction events as [|e events IH]; intros i entries H;
    cbn [add_events] in H.
  - injection H as <-. reflexivity.
  - destruct (Datetime.aware_add (datetime e) (Datetime.td_minutes 30))
      as [dtend|]; cbn [bind] in H; [|discriminate].
    destruct (url e) as [u|] eqn:U; cbn [bind] in H; [|discriminate].
    destruct (add_events stamp (S i) events) as [rest|] eqn:R;
      cbn [bind] in H; [|discriminate].
    injection H as <-. cbn [forallb]. rewrite (IH _ _ R). f_equal.
    unfold has_accepted_url, entry_accepted. rewrite U.
    cbn [forallb snd andb]. now rewrite andb_true_r.
Qed.

(** C5. The identifier of an entry is the last path segment of the event's
    URL followed by "@strava-scraper"; it does not depend on the generation
    time stamps: assembling the same events under another clock returns as
    well and gives every entry the same identifier. Every event of a
    calendar that was assembled has a URL. *)
Theorem uid_same_under_any_stamps (uri_accepted : string -> bool)
    (stamp1 stamp2 : nat -> Datetime.datetime) (events : list event)
    (cal1 : calendar) :
  generate_ics_calendar uri_accepted stamp1 events = Val cal1 ->
  exists cal2,
    generate_ics_calendar uri_accepted stamp2 events = Val cal2
    /\ map (prop "uid") (cal_events cal2)
       = map (prop "uid") (cal_events cal1)
    /\ map (prop "uid") (cal_events cal1)
       = map (fun e =>
                option_map
                  (fun u => VText (Text.last_item (Text.split "/" u)
                                   ++ "@strava-scraper")) (url e)) events
    /\ Forall (fun e => exists u, url e = Some u) events
    /\ (forall pre seg, Text.contains_char "/" seg = false ->
          event_uid (pre ++ "/" ++ seg) = seg ++ "@strava-scraper").
Proof.
  unfold generate_ics_calendar. intros H.
  destruct (add_events stamp1 0 events) as [es1|] eqn:E1; cbn [bind] in H;
    [|discriminate].
  destruct (forallb (entry_accepted uri_accepted) es1) eqn:A1;
    [|discriminate].
  injection H as <-.
  destruct (add_events_returns stamp1 stamp2 0%nat 0%nat events es1 E1)
    as [es2 E2].
  rewrite E2. cbn [bind].
  rewrite (add_events_accepted uri_accepted _ _ _ _ E2),
    <- (add_events_accepted uri_accepted _ _ _ _ E1), A1.
  eexists. split; [reflexivity|].
  cbn [cal_events].
  rewrite (add_events_uid _ _ _ _ E1), (add_events_uid _ _ _ _ E2).
  split; [reflexivity|]. split; [reflexivity|].
  split; [exact (add_events_urls _ _ _ _ E1)|].
  apply event_uid_last_segment.
Qed.

(** C10. The identifier is not injective on URLs: two URLs with the same
    last path segment get the same identifier, every URL that ends in a
    slash gets the bare suffix, and two different events of one calendar
    can carry the same identifier. *)
Theorem uid_collides_on_last_segment :
  (forall pre1 pre2 seg, Text.contains_char "/" seg = false ->
     event_uid (pre1 ++ "/" ++ seg) = event_uid (pre2 ++ "/" ++ seg))
  /\ (forall pre, event_uid (pre ++ "/") = "@strava-scraper")
  /\ (forall uri_accepted stamp e1 e2 cal,
        option_map (fun u => Text.last_item (Text.split "/" u)) (url e1)
        = option_map (fun u => Text.last_item (Text.split "/" u)) (url e2) ->
        generate_ics_calendar uri_accepted stamp [e1; e2] = Val cal ->
        exists p1 p2 uid,
          cal_events cal = [p1; p2]
          /\ prop "uid" p1 = Some uid /\ prop "uid" p2 = Some uid)
  /\ "https://www.strava.com/clubs/1/group_events/77"
     <> "https://www.strava.com/clubs/2/group_events/77"
  /\ event_uid "https://www.strava.com/clubs/1/group_events/77"
     = event_uid "https://www.strava.com/clubs/2/group_events/77".
Proof.
  split; [|split; [|split; [|split]]].
  - intros pre1 pre2 seg H. now rewrite !event_uid_last_segment.
  - intros pre. apply (event_uid_last_segment pre ""). reflexivity.
  - intros uri_accepted stamp e1 e2 cal L H.
    unfold generate_ics_calendar in H.
    destruct (add_events stamp 0 [e1; e2]) as [es|] eqn:E; cbn [bind] in H;
      [|discriminate].
    destruct (forallb (entry_accepted uri_accepted) es); [|discriminate].
    injection H as <-. pose proof (add_events_uid _ _ _ _ E) as U.
    pose proof (add_events_urls _ _ _ _ E) as F.
    inversion F as [|? ? [u1 U1] F']. subst.
    inversion F' as [|? ? [u2 U2] _]. subst.
    destruct es as [|p1 [|p2 [|]]]; try discriminate.
    cbn [map] in U. rewrite U1, U2 in U. rewrite U1, U2 in L.
    cbn [option_map] in U, L. injection U as P1 P2. injection L as L.
    exists p1, p2, (VText (event_uid u1)). split; [reflexivity|].
    split; [exact P1|]. rewrite P2. unfold event_uid. now rewrite L.
  - discriminate.
  - reflexivity.
Qed.

Lemma uid_same_under_any_stamps_witness :
  exists cal2,
    generate_ics_calendar one_line (fun _ => at_date 2024 6 2 8 0)
      [group_ride]
    = Val cal2
    /\ map (prop "uid") (cal_events cal2)
       = [Some (VText "12345@strava-scraper")].
Proof.
  destruct (uid_same_under_any_stamps one_line
              (fun _ => at_date 2024 6 1 16 0) (fun _ => at_date 2024 6 2 8 0)
              [group_ride]
              (mkcalendar calendar_header
                 [[ ("summary", VText "Group Ride");
                    ("dtstart", VAware (at_pst 2024 6 15 6 0));
                    ("dtend", VAware (at_pst 2024 6 15 6 30));
                    ("description", VText (event_description group_ride));
                    ("url",
                     VUri "https://www.strava.com/clubs/1/group_events/12345");
                    ("uid", VText "12345@strava-scraper");
                    ("dtstamp", VUtc (at_date 2024 6 1 16 0)) ]]))
    as (cal2 & E & U & _).
  - vm_compute. reflexivity.
  - exists cal2. split; [exact E|]. rewrite U. reflexivity.
Defined.

Lemma uid_collides_on_last_segment_witness :
  event_uid ("https://www.strava.com/clubs/1/group_events" ++ "/" ++ "77")
  = event_uid ("https://www.strava.com/clubs/2/group_events" ++ "/" ++ "77").
Proof.
  apply (proj1 uid_collides_on_last_segment). reflexivity.
Defined.

(** The text of [%I:%M %p] for hour [h] and minute [mi], character by
    character: the hour on the 12-hour clock and the minute with two
    decimal digits each, a blank, AM before noon and PM from noon on. *)
Definition clock_text (h mi : Z) : string :=
  let digit := fun k : Z => ascii_of_nat (48 + Z.to_nat k) in
  let h12 := if h mod 12 =? 0 then 12 else h mod 12 in
  String (digit (h12 / 10)) (String (digit (h12 mod 10)) (String ":"
    (String (digit (mi / 10)) (String (digit (mi mod 10)) (String " "
      (String (if h <? 12 then "A"%char else "P"%char) (String "M" ""))))))).

(** What C7 says of one event and its entry. *)
Definition entry_follows (e : event) (ps : properties) : Prop :=
  prop "dtstart" ps = Some (VAware (datetime e))
  /\ (exists dtend,
        prop "dtend" ps = Some (VAware dtend)
        /\ Datetime.aware_add (datetime e) (Datetime.td_minutes 30)
           = Val dtend
        /\ Datetime.aware_diff dtend (datetime e) = 30 * 60 * 1000000
        /\ Datetime.tz dtend = Datetime.tz (datetime e))
  /\ prop "summary" ps = Some (VText (name e))
  /\ (exists u,
        url e = Some u
        /\ prop "url" ps = Some (VUri u)
        /\ prop "description" ps
           = Some (VText
                     ("Strava Event: " ++ u
                      ++ String (ascii_of_nat 10) "Ride starts at: "
                      ++ clock_text
                           (Datetime.hour
                              (Datetime.time_of
                                 (Datetime.wall (original_time e))))
                           (Datetime.minute
                              (Datetime.time_of
                                 (Datetime.wall (original_time e))))))).

(** An event whose entry can end 30 minutes later: a valid start before
    year 9999. *)
Definition can_end (e : event) : Prop :=
  Datetime.valid_datetime (Datetime.wall (datetime e)) = true
  /\ Datetime.year (Datetime.date_of (Datetime.wall (datetime e))) <= 9998.

(** An event the assembler can write: its entry can end, its ride time is
    a time of day, and it has a URL that [icalendar] takes. *)
Definition can_be_written (uri_accepted : string -> bool) (e : event)
    : Prop :=
  can_end e
  /\ Datetime.valid_time
       (Datetime.time_of (Datetime.wall (original_time e))) = true
  /\ has_accepted_url uri_accepted e = true.

Lemma two_digits_all :
  forallb (fun n =>
             String.eqb (Text.two_digits n)
               (String (ascii_of_nat (48 + Z.to_nat (n / 10)))
                  (String (ascii_of_nat (48 + Z.to_nat (n mod 10))) "")))
          (zrange 0 100) = true.
Proof. vm_compute. reflexivity. Qed.

Lemma two_digits_spelled n :
  0 <= n < 100 ->
  Text.two_digits n
  = String (ascii_of_nat (48 + Z.to_nat (n / 10)))
      (String (ascii_of_nat (48 + Z.to_nat (n mod 10))) "").
Proof.
  intros H. apply String.eqb_eq.
  apply (RangeFacts.forallb_zrange _ 0 100%nat n two_digits_all). lia.
Qed.

(** [strftime] writes the time of day as [clock_text] spells it. *)
Lemma strftime_I_M_p_spelled t :
  Datetime.valid_time t = true ->
  Datetime.strftime_I_M_p t
  = clock_text (Datetime.hour t) (Datetime.minute t).
Proof.
  intros V. unfold Datetime.valid_time in V.
  repeat (apply andb_prop in V; destruct V as [V ?]).
  repeat match goal with
         | H : (_ <=? _) = true |- _ => apply Z.leb_le in H
         | H : (_ <? _) = true |- _ => apply Z.ltb_lt in H
         end.
  unfold Datetime.strftime_I_M_p, clock_text. cbv zeta.
  rewrite (two_digits_spelled (Datetime.minute t)) by lia.
  rewrite two_digits_spelled.
  - destruct (Datetime.hour t <? 12); reflexivity.
  - destruct (Datetime.hour t mod 12 =? 0) eqn:E; [lia|].
    pose proof (Z.mod_pos_bound (Datetime.hour t) 12 ltac:(lia)). lia.
Qed.

(** An entry the loop made follows its event. *)
Lemma add_events_entries stamp i events entries :
  Forall (fun e => Datetime.valid_time
                     (Datetime.time_of (Datetime.wall (original_time e)))
                   = true) events ->
  add_events stamp i events = Val entries ->
  Forall2 entry_follows events entries.
Proof.
  intros H. revert i entries.
  induction H as [|e events V _ IH]; intros i entries A;
    cbn [add_events] in A.
  - injection A as <-. constructor.
  - destruct (Datetime.aware_add (datetime e) (Datetime.td_minutes 30))
      as [dtend|] eqn:D; cbn [bind] in A; [|discriminate].
    destruct (url e) as [u|] eqn:U; cbn [bind] in A; [|discriminate].
    destruct (add_events stamp (S i) events) as [rest|] eqn:R;
      cbn [bind] in A; [|discriminate].
    injection A as <-. constructor; [|exact (IH _ _ R)].
    pose proof (AwareFacts.aware_add_spec _ _ _ D) as (Tz & _ & Us & _).
    unfold entry_follows. split; [reflexivity|]. split; [|split].
    + exists dtend. split; [reflexivity|]. split; [exact D|].
      rewrite AwareFacts.aware_diff_utc, Us.
      unfold Datetime.td_minutes, Datetime.US_PER_SECOND. split; [lia|].
      exact Tz.
    + reflexivity.
    + exists u. split; [exact U|]. split; [reflexivity|].
      cbn [prop String.eqb Ascii.eqb Bool.eqb]. unfold event_description.
      rewrite U. cbn [str_of_optional].
      rewrite (strftime_I_M_p_spelled _ V). reflexivity.
Qed.

(** The loop returns on events that can end and have a URL. *)
Lemma add_events_total stamp i events :
  Forall can_end events ->
  Forall (fun e => exists u, url e = Some u) events ->
  exists entries, add_events stamp i events = Val entries.
Proof.
  intros H. revert i. induction H as [|e events [V Y] _ IH]; intros i F;
    cbn [add_events].
  - eauto.
  - inversion F as [|? ? [u U] F']. subst.
    assert (R : DatetimeFacts.representable
                  (Datetime.to_micros (Datetime.wall (datetime e))
                   + Datetime.td_minutes 30)).
    { apply DatetimeFacts.representable_forward; auto.
      unfold Datetime.td_minutes, Datetime.US_PER_DAY, Datetime.US_PER_SECOND.
      lia. }
    apply DatetimeFacts.add_returns in R. destruct R as [w Hw].
    unfold Datetime.aware_add. rewrite Hw. cbn [bind]. rewrite U.
    cbn [bind]. destruct (IH (S i) F') as [rest ->]. cbn [bind]. eauto.
Qed.

(** C7. Each event gives one entry, in order: the entry starts at the
    event's [datetime], ends exactly 30 minutes later in the same tzinfo,
    has the event's name as summary, the event's URL as url, and as
    description the line "Strava Event: " with the URL and the line
    "Ride starts at: " with the hour and minute of [original_time] on the
    12-hour clock. This holds of every calendar the assembler returns, and
    it returns one when every event can end before the year 10000 and has
    a URL that [icalendar] writes; with an event without URL, or with one
    that [icalendar] refuses, it raises. *)
Theorem entries_follow_events (uri_accepted : string -> bool)
    (stamp : nat -> Datetime.datetime) (events : list event) :
  Forall (fun e => Datetime.valid_time
                     (Datetime.time_of (Datetime.wall (original_time e)))
                   = true) events ->
  (forall cal,
     generate_ics_calendar uri_accepted stamp events = Val cal ->
     Forall2 entry_follows events (cal_events cal)
     /\ cal_properties cal = calendar_header)
  /\ (Forall (can_be_written uri_accepted) events ->
      exists cal, generate_ics_calendar uri_accepted stamp events = Val cal)
  /\ (forallb (has_accepted_url uri_accepted) events = false ->
      exists e, generate_ics_calendar uri_accepted stamp events = Raise e).
Proof.
  intros T. unfold generate_ics_calendar. split; [|split].
  - intros cal H.
    destruct (add_events stamp 0 events) as [entries|] eqn:A;
      cbn [bind] in H; [|discriminate].
    destruct (forallb (entry_accepted uri_accepted) entries);
      [|discriminate].
    injection H as <-. cbn [cal_events cal_properties].
    split; [|reflexivity]. exact (add_events_entries _ _ _ _ T A).
  - intros W.
    assert (E : Forall can_end events).
    { eapply Forall_impl; [|exact W]. intros e H. apply H. }
    assert (U : Forall (fun e => exists u, url e = Some u) events).
    { eapply Forall_impl; [|exact W]. intros e (_ & _ & H).
      unfold has_accepted_url in H. destruct (url e); [eauto|discriminate]. }
    destruct (add_events_total stamp 0%nat events E U) as [entries A].
    rewrite A. cbn [bind].
    rewrite (add_events_accepted uri_accepted _ _ _ _ A).
    assert (F : forallb (has_accepted_url uri_accepted) events = true).
    { apply forallb_forall. rewrite Forall_forall in W.
      intros e I. apply (W e I). }
    rewrite F. eauto.
  - intros F.
    destruct (add_events stamp 0 events) as [entries|e] eqn:A; cbn [bind];
      [|eauto].
    rewrite (add_events_accepted uri_accepted _ _ _ _ A), F. eauto.
Qed.

Lemma entries_follow_events_witness :
  exists cal,
    generate_ics_calendar one_line (fun _ => at_date 2024 6 1 16 0)
      [group_ride]
    = Val cal
    /\ Forall2 entry_follows [group_ride] (cal_events cal)
    /\ map (prop "description") (cal_events cal)
       = [Some (VText
                  ("Strava Event: "
                   ++ "https://www.strava.com/clubs/1/group_events/12345"
                   ++ String (ascii_of_nat 10)
                        "Ride starts at: 06:30 AM"))].
Proof.
  destruct (entries_follow_events one_line (fun _ => at_date 2024 6 1 16 0)
              [group_ride]) as (F & R & _).
  - constructor; [|constructor]. vm_compute. reflexivity.
  - destruct R as [cal E].
    + constructor; [|constructor]. split; [|split].
      * split; [vm_compute; reflexivity|]. cbn. lia.
      * vm_compute. reflexivity.
      * vm_compute. reflexivity.
    + exists cal. split; [exact E|]. split; [apply (F cal E)|].
      vm_compute in E. injection E as <-. reflexivity.
Defined.

Example group_ride_description :
  event_description group_ride
  = "Strava Event: https://www.strava.com/clubs/1/group_events/12345"
    ++ String (ascii_of_nat 10) "Ride starts at: 06:30 AM"
  /\ clock_text 6 30 = "06:30 AM"
  /\ clock_text 0 5 = "12:05 AM"
  /\ clock_text 12 0 = "12:00 PM"
  /\ clock_text 23 59 = "11:59 PM".
Proof. repeat split; reflexivity. Qed.

(** An event without URL, as a row whose anchor has no href gives it, and
    one whose URL holds a line feed, with [one_line] for what [icalendar]
    takes: the assembler raises on both, and writes no entry for the event
    before them either. *)
Example unwritable_events :
  let stamp := fun _ : nat => at_date 2024 6 1 16 0 in
  let no_url :=
    {| name := name group_ride; datetime := datetime group_ride;
       url := None; original_time := original_time group_ride |} in
  let two_lines :=
    {| name := name group_ride; datetime := datetime group_ride;
       url := Some ("https://www.strava.com/clubs/1/group_events/1"
                    ++ String (ascii_of_nat 10) "2");
       original_time := original_time group_ride |} in
  generate_ics_calendar one_line stamp [group_ride; no_url]
  = Raise AttributeError
  /\ generate_ics_calendar one_line stamp [group_ride; two_lines]
     = Raise AssertionError.
Proof. split; vm_compute; reflexivity. Qed.




(** * Facts about the title pattern *)

Module TitleFacts.
Import ReFacts.

Lemma matches_lit s w c c' : Re.matches (Re.lit s) w c c' -> w = s /\ c' = c.
Proof.
  revert w c. induction s as [|a s IH]; intros w c M; cbn in M.
  - exact M.
  - destruct M as (w1 & w2 & c1 & -> & (b & -> & E & ->) & M).
    apply Ascii.eqb_eq in E. subst b.
    apply IH in M. destruct M as [-> ->]. auto.
Qed.

Lemma length_nonempty w :
  (1 <= String.length w)%nat -> w <> "".
Proof. intros L ->. cbn in L. lia. Qed.

(** What a title that matched is made of. *)
Lemma title_pattern_shape title rest c :
  Re.re_match title_pattern title = Some (rest, c) ->
  exists day ws1 time_str ws2 am_pm ws3 ws4 ename,
    title = day ++ ws1 ++ time_str ++ ws2 ++ am_pm ++ ws3 ++ "/" ++ ws4
            ++ ename ++ rest
    /\ c = [(4%nat, ename); (3%nat, am_pm); (2%nat, time_str); (1%nat, day)]
    /\ (am_pm = "AM" \/ am_pm = "PM")
    /\ Text.all_chars Text.is_word day = true /\ day <> ""
    /\ Text.all_chars Text.is_space ws1 = true /\ ws1 <> ""
    /\ Text.all_chars Text.is_dot ename = true /\ ename <> "".
Proof.
  intros H. apply re_match_sound in H. destruct H as (w & -> & M).
  unfold title_pattern in M.
  cbn [Re.seqs Re.matches Re.plus Re.star] in M.
  destruct M as (day & r1 & c1 & -> & (c0 & (Hday & Lday & _ & ->) & ->) & M).
  destruct M as (ws1 & r2 & c2 & -> & (Hws1 & Lws1 & _ & ->) & M).
  destruct M as (time_str & r3 & c3 & -> & (c4 & Mtime & ->) & M).
  destruct Mtime as (hh & r4 & c5 & _ & (_ & _ & _ & ->) & Mtime).
  destruct Mtime as (co & mm & c6 & _ & (b & _ & _ & ->) & (_ & _ & _ & ->)).
  destruct M as (ws2 & r5 & c7 & -> & (_ & _ & _ & ->) & M).
  destruct M as (am_pm & r6 & c8 & -> & (c9 & Mam & ->) & M).
  assert (A : (am_pm = "AM" \/ am_pm = "PM") /\ c9 = [(2%nat, time_str); (1%nat, day)]).
  { destruct Mam as [Mam|Mam]; apply matches_lit in Mam;
      destruct Mam as [-> ->]; auto. }
  destruct A as [A ->].
  destruct M as (ws3 & r7 & c10 & -> & (_ & _ & _ & ->) & M).
  destruct M as (sl & r8 & c11 & -> & (b' & -> & E & ->) & M).
  apply Ascii.eqb_eq in E. subst b'.
  destruct M as (ws4 & ename & c12 & -> & (_ & _ & _ & ->) & M).
  destruct M as (c13 & (Hen & Len & _ & ->) & ->).
  exists day, ws1, time_str, ws2, am_pm, ws3, ws4, ename.
  split; [rewrite !append_assoc; reflexivity|].
  split; [reflexivity|].
  repeat split; auto using length_nonempty.
Qed.

Lemma contains_char_app c x y :
  Text.contains_char c (x ++ y)
  = Text.contains_char c x || Text.contains_char c y.
Proof.
  induction x as [|a x IH]; cbn; [reflexivity|].
  now rewrite IH, orb_assoc.
Qed.

Lemma title_needs_slash title :
  Text.contains_char "/" title = false ->
  Re.re_match title_pattern title = None.
Proof.
  intros H. destruct (Re.re_match title_pattern title) as [[rest c]|] eqn:E;
    [|reflexivity].
  apply title_pattern_shape in E.
  destruct E as (day & ws1 & t & ws2 & ap & ws3 & ws4 & en & -> & _).
  rewrite !contains_char_app in H. cbn in H.
  repeat (apply orb_false_elim in H; destruct H as [? H]); discriminate.
Qed.

Lemma title_needs_am_pm title :
  ~ Text.occurs_in "AM" title -> ~ Text.occurs_in "PM" title ->
  Re.re_match title_pattern title = None.
Proof.
  intros HA HP.
  destruct (Re.re_match title_pattern title) as [[rest c]|] eqn:E;
    [|reflexivity].
  apply title_pattern_shape in E.
  destruct E as (day & ws1 & t & ws2 & ap & ws3 & ws4 & en & -> & _ & A & _).
  exfalso. destruct A as [-> | ->]; [apply HA|apply HP];
    exists (day ++ ws1 ++ t ++ ws2), (ws3 ++ "/" ++ ws4 ++ en ++ rest);
    rewrite !append_assoc; reflexivity.
Qed.

(** The classes of the title pattern that must not overlap. *)
Lemma word_not_space a : Text.is_word a = true -> Text.is_space a = false.
Proof.
  destruct a as [[] [] [] [] [] [] [] []]; vm_compute; congruence.
Qed.

Lemma space_not_word a : Text.is_space a = true -> Text.is_word a = false.
Proof.
  intros H. destruct (Text.is_word a) eqn:W; [|reflexivity].
  apply word_not_space in W. congruence.
Qed.

Lemma space_not_digit a : Text.is_space a = true -> Text.is_digit a = false.
Proof.
  destruct a as [[] [] [] [] [] [] [] []]; vm_compute; congruence.
Qed.

(** The day token is whatever word stands in front of the first blank; the
    rest of the match does not look at it. *)
Lemma re_match_title_day day rest :
  Text.all_chars Text.is_word day = true -> day <> "" ->
  starts_with Text.is_space rest ->
  Re.re_match title_pattern (day ++ rest)
  = option_map (fun r => (fst r, (snd r ++ [(1%nat, day)])%list))
      (Re.rmatch title_tail rest [] accept).
Proof.
  intros W N S.
  change (Re.re_match title_pattern (day ++ rest))
    with (Re.rep Text.is_word 1 None (day ++ rest)
            (fun s1 =>
               Re.rmatch title_tail s1
                 [(1%nat, Re.consumed (day ++ rest) s1)] accept)).
  rewrite rep_run; auto.
  - rewrite consumed_app.
    apply (rmatch_transport
             (fun r => (fst r, (snd r ++ [(1%nat, day)])%list))
             [(1%nat, day)] title_tail rest [] accept accept).
    reflexivity.
  - destruct rest as [|a rest]; [exact I|]. cbn in *. now apply space_not_word.
  - destruct day; [congruence|cbn; lia].
  - intros a t Wa. cbn. now rewrite (word_not_space a Wa).
Qed.

End TitleFacts.

Section ParserClaims.

Variable la_offset : Datetime.datetime -> Z.

Import ReFacts TitleFacts.

(** C4. A title without a slash, or without AM and PM, a date or a time
    that [strptime] rejects, or any other exception of the date step: the
    parser returns None. A row that fails, in the parser or in reading its
    elements, leaves the events of the rows before and after it as they
    are. *)
Theorem parse_failures_are_contained :
  (forall now1 now2 title_text date_text month_text event_url,
     Text.contains_char "/" title_text = false ->
     parse_event_details la_offset now1 now2 title_text date_text month_text
       event_url = None)
  /\ (forall now1 now2 title_text date_text month_text event_url,
        ~ Text.occurs_in "AM" title_text ->
        ~ Text.occurs_in "PM" title_text ->
        parse_event_details la_offset now1 now2 title_text date_text
          month_text event_url = None)
  /\ (forall now1 now2 title_text date_text month_text event_url e,
        Datetime.strptime_d_b_Y
          (date_text ++ " " ++ month_text ++ " "
           ++ Text.str_of_int (Datetime.year (Datetime.date_of now1)))
        = Raise e ->
        parse_event_details la_offset now1 now2 title_text date_text
          month_text event_url = None)
  /\ (forall now1 now2 title_text date_text month_text event_url e,
        resolve_event_date now1 now2 date_text month_text = Raise e ->
        parse_event_details la_offset now1 now2 title_text date_text
          month_text event_url = None)
  /\ (forall now1 now2 title_text date_text month_text event_url rest
             groups e,
        Re.re_match title_pattern title_text = Some (rest, groups) ->
        Datetime.strptime_I_M_p
          (Re.group 2 groups ++ " " ++ Re.group 3 groups) = Raise e ->
        parse_event_details la_offset now1 now2 title_text date_text
          month_text event_url = None)
  /\ (forall before r after,
        (forall ev, scrape_row la_offset r <> Val (Some ev)) ->
        scrape_club_events la_offset (before ++ r :: after)
        = (scrape_club_events la_offset before
           ++ scrape_club_events la_offset after)%list)
  /\ (forall before after,
        scrape_club_events la_offset (before ++ after)
        = (scrape_club_events la_offset before
           ++ scrape_club_events la_offset after)%list).
Proof.
  assert (Date : forall now1 now2 title_text date_text month_text event_url e,
             resolve_event_date now1 now2 date_text month_text = Raise e ->
             parse_event_details la_offset now1 now2 title_text date_text
               month_text event_url = None).
  { intros * R. unfold parse_event_details.
    destruct (Re.re_match title_pattern title_text) as [[rest g]|];
      [|reflexivity].
    rewrite R. destruct e; reflexivity. }
  assert (Step : forall rows acc,
             fold_left (scrape_step la_offset) rows acc
             = (acc ++ scrape_club_events la_offset rows)%list).
  { unfold scrape_club_events.
    induction rows as [|r rows IH]; intros acc; cbn [fold_left].
    - now rewrite app_nil_r.
    - rewrite IH, (IH (scrape_step la_offset [] r)).
      unfold scrape_step. destruct (scrape_row la_offset r) as [[ev|]|];
        cbn [app]; rewrite ?app_nil_r, <- ?app_assoc; reflexivity. }
  assert (App : forall before after,
             scrape_club_events la_offset (before ++ after)
             = (scrape_club_events la_offset before
                ++ scrape_club_events la_offset after)%list).
  { intros. unfold scrape_club_events at 1 2.
    now rewrite fold_left_app, Step. }
  repeat split.
  - intros * H. unfold parse_event_details.
    now rewrite title_needs_slash.
  - intros * HA HP. unfold parse_event_details.
    now rewrite title_needs_am_pm.
  - intros * R. apply (Date _ now2 _ _ _ _ e).
    unfold resolve_event_date. now rewrite R.
  - exact Date.
  - intros * T R. unfold parse_event_details. rewrite T.
    destruct (resolve_event_date now1 now2 date_text month_text) as [d|[]];
      cbn [except_ValueError except_Exception]; try reflexivity.
    rewrite R. destruct e; reflexivity.
  - intros before r after F. rewrite App. f_equal.
    change (r :: after) with ([r] ++ after)%list. rewrite App.
    unfold scrape_club_events at 1. cbn [fold_left]. unfold scrape_step.
    destruct (scrape_row la_offset r) as [[ev|]|]; try reflexivity.
    now destruct (F ev).
  - exact App.
Qed.

End ParserClaims.

Lemma parse_failures_are_contained_witness :
  parse_event_details pst_only (at_date 2024 6 1 9 0) (at_date 2024 6 1 9 0)
    "Tue 6:30 AM - Group Ride" "15" "Jun"
    (Some "https://www.strava.com/clubs/1/group_events/12345")
  = None.
Proof.
  apply (proj1 (parse_failures_are_contained pst_only)). reflexivity.
Defined.

(** * Facts about the resolution of dates *)

Module DateFacts.
Import RangeFacts ReFacts TitleFacts Datetime DatetimeFacts.

Lemma after_last_nondigit_digits t :
  Text.all_chars Text.is_digit t = true -> after_last_nondigit t = None.
Proof.
  induction t as [|a t IH]; cbn; [reflexivity|]. intros H.
  apply andb_prop in H. destruct H as [Ha Ht]. now rewrite IH, Ha.
Qed.

Lemma after_last_nondigit_app pre c t :
  Text.is_digit c = false -> Text.all_chars Text.is_digit t = true ->
  after_last_nondigit (pre ++ String c t) = Some t.
Proof.
  intros Hc Ht. induction pre as [|a pre IH]; cbn.
  - now rewrite after_last_nondigit_digits, Hc.
  - now rewrite IH.
Qed.

Lemma digit_suffix_unique pre1 c1 t1 pre2 c2 t2 :
  pre1 ++ String c1 t1 = pre2 ++ String c2 t2 ->
  Text.is_digit c1 = false -> Text.all_chars Text.is_digit t1 = true ->
  Text.is_digit c2 = false -> Text.all_chars Text.is_digit t2 = true ->
  t1 = t2.
Proof.
  intros E H1 D1 H2 D2.
  pose proof (after_last_nondigit_app pre1 c1 t1 H1 D1) as A1.
  pose proof (after_last_nondigit_app pre2 c2 t2 H2 D2) as A2.
  rewrite E in A1. congruence.
Qed.

Lemma string_last p s :
  s <> "" -> Text.all_chars p s = true ->
  exists init c, s = init ++ String c "" /\ p c = true.
Proof.
  induction s as [|a s IH]; [congruence|]. intros _ H. cbn in H.
  apply andb_prop in H. destruct H as [Ha Hs].
  destruct s as [|b s].
  - exists "", a. auto.
  - destruct IH as (init & c & E & Hc); [discriminate|assumption|].
    exists (String a init), c. cbn. now rewrite E.
Qed.

Lemma matches_digit4 w c c' :
  Re.matches re_Y w c c' ->
  Text.all_chars Text.is_digit w = true /\ c' = c.
Proof.
  unfold re_Y, digit. cbn [Re.seqs Re.matches].
  intros (w1 & r1 & c1 & -> & (a1 & -> & D1 & ->) & M).
  destruct M as (w2 & r2 & c2 & -> & (a2 & -> & D2 & ->) & M).
  destruct M as (w3 & r3 & c3 & -> & (a3 & -> & D3 & ->) & M).
  destruct M as (a4 & -> & D4 & ->).
  cbn. now rewrite D1, D2, D3, D4.
Qed.

(** A date that parsed ends in a blank and the digits of its year. *)
Lemma strptime_d_b_Y_shape data dt :
  strptime_d_b_Y data = Val dt ->
  exists pre c wy,
    data = pre ++ String c wy /\ Text.is_space c = true
    /\ Text.all_chars Text.is_digit wy = true
    /\ year (date_of dt) = Text.int_of wy.
Proof.
  unfold strptime_d_b_Y, strptime_groups.
  destruct (Re.re_match re_d_b_Y data) as [[rest g]|] eqn:E;
    cbn [bind]; [|discriminate].
  destruct (String.eqb_spec rest ""); cbn [bind]; [subst rest|discriminate].
  apply re_match_sound in E. destruct E as (w & -> & M).
  unfold re_d_b_Y in M. cbn [Re.seqs Re.matches Re.plus] in M.
  destruct M as (wd & r1 & c1 & -> & (c0 & _ & ->) & M).
  destruct M as (ws1 & r2 & c2 & -> & _ & M).
  destruct M as (wb & r3 & c3 & -> & (c4 & _ & ->) & M).
  destruct M as (ws2 & wy & c5 & -> & (Hs & Ls & _ & ->) & M).
  destruct M as (c6 & MY & ->).
  apply matches_digit4 in MY. destruct MY as [DY ->].
  destruct (string_last Text.is_space ws2) as (init & c & -> & Hc);
    [now apply length_nonempty|assumption|].
  cbn [Re.group Nat.eqb].
  destruct (index_of _ month_abbr 1) as [m|]; [|discriminate].
  unfold new_datetime. destruct (valid_datetime _); [|discriminate].
  intros V. injection V as <-. cbn [year date_of].
  exists (wd ++ ws1 ++ wb ++ init), c, wy.
  rewrite append_nil_r, !append_assoc. cbn [append]. auto.
Qed.

Lemma decimal_ok_all : forallb decimal_ok (zrange 0 (Z.to_nat 10001)) = true.
Proof. vm_compute. reflexivity. Qed.

Lemma str_of_int_small y :
  0 <= y <= 10000 ->
  Text.all_chars Text.is_digit (Text.str_of_int y) = true
  /\ Text.int_of (Text.str_of_int y) = y.
Proof.
  intros H. pose proof (forallb_zrange _ _ _ y decimal_ok_all) as A.
  specialize (A ltac:(lia)). unfold decimal_ok in A.
  apply andb_prop in A. destruct A as [A1 A2]. apply Z.eqb_eq in A2. auto.
Qed.

(** The year of a date that parsed is the year that was written last. *)
Lemma strptime_d_b_Y_year text y dt :
  0 <= y <= 10000 ->
  strptime_d_b_Y (text ++ " " ++ Text.str_of_int y) = Val dt ->
  year (date_of dt) = y.
Proof.
  intros Hy H. apply strptime_d_b_Y_shape in H.
  destruct H as (pre & c & wy & E & Hc & Dy & ->).
  destruct (str_of_int_small y Hy) as [D I].
  symmetry in E. apply digit_suffix_unique in E; auto using space_not_digit.
  now rewrite E.
Qed.


Lemma sub_spec dt td :
  valid_datetime dt = true -> 2 <= year (date_of dt) ->
  0 <= td <= 365 * US_PER_DAY ->
  exists limit, sub dt td = Val limit /\ to_micros limit = to_micros dt - td.
Proof.
  intros V Y T. unfold sub.
  destruct (add_returns dt (- td)) as [limit E].
  { rewrite Z.add_opp_r. now apply representable_backward. }
  exists limit. split; [exact E|]. apply add_spec in E. lia.
Qed.

Lemma is_midnight_of_eq y m d r :
  is_midnight_of y m d r = true -> r = Val (at_date y m d 0 0).
Proof.
  destruct r as [[[y' m' d'] [H Mi Se us]]|]; cbn; [|discriminate].
  intros E. repeat (apply andb_prop in E; destruct E as [E ?]).
  repeat match goal with H : (_ =? _) = true |- _ => apply Z.eqb_eq in H end.
  subst. reflexivity.
Qed.

Lemma strptime_5_Jan_all :
  forallb (fun y => is_midnight_of y 1 5
                      (strptime_d_b_Y ("5" ++ " " ++ "Jan" ++ " "
                                       ++ Text.str_of_int y)))
          (zrange 1000 (Z.to_nat 9000)) = true.
Proof. vm_compute. reflexivity. Qed.

Lemma strptime_15_Jun_all :
  forallb (fun y => is_midnight_of y 6 15
                      (strptime_d_b_Y ("15" ++ " " ++ "Jun" ++ " "
                                       ++ Text.str_of_int y)))
          (zrange 1000 (Z.to_nat 9000)) = true.
Proof. vm_compute. reflexivity. Qed.

Lemma strptime_5_Jan y :
  1000 <= y <= 9999 ->
  strptime_d_b_Y ("5" ++ " " ++ "Jan" ++ " " ++ Text.str_of_int y)
  = Val (at_date y 1 5 0 0).
Proof.
  intros H. apply is_midnight_of_eq.
  apply (forallb_zrange _ _ _ y strptime_5_Jan_all). lia.
Qed.

Lemma strptime_15_Jun y :
  1000 <= y <= 9999 ->
  strptime_d_b_Y ("15" ++ " " ++ "Jun" ++ " " ++ Text.str_of_int y)
  = Val (at_date y 6 15 0 0).
Proof.
  intros H. apply is_midnight_of_eq.
  apply (forallb_zrange _ _ _ y strptime_15_Jun_all). lia.
Qed.

Lemma to_micros_at y m d t :
  to_micros (combine (mkdate y m d) t)
  = (days_before_year y + dbm (is_leap y) m + d) * US_PER_DAY
    + time_micros t.
Proof. reflexivity. Qed.

(** Scraped on 20 Dec, "5 Jan" is next year's. *)
Lemma resolve_in_december y t1 t2 :
  1000 <= y <= 9998 -> valid_time t2 = true ->
  resolve_event_date (combine (mkdate y 12 20) t1)
    (combine (mkdate y 12 20) t2) "5" "Jan"
  = Val (at_date (y + 1) 1 5 0 0).
Proof.
  intros Y V. unfold resolve_event_date. cbn [year date_of].
  rewrite strptime_5_Jan by lia. cbn [bind].
  pose proof (valid_time_micros t2 V) as Tm.
  destruct (sub_spec (combine (mkdate y 12 20) t2) (td_days 60))
    as (limit & -> & L).
  - unfold valid_datetime. cbn [date_of time_of]. rewrite V, andb_true_r.
    unfold valid_date, MINYEAR, MAXYEAR. cbn [year month day].
    rewrite days_in_month_leap.
    repeat (apply andb_true_intro; split);
      first [apply Z.leb_le | apply Z.ltb_lt]; try lia.
    destruct (is_leap y); vm_compute; discriminate.
  - cbn. lia.
  - unfold td_days, US_PER_DAY, US_PER_SECOND. lia.
  - cbn [bind]. unfold lt. rewrite L. unfold at_date.
    rewrite !to_micros_at.
    replace (_ <? _) with true; [apply strptime_5_Jan; lia|].
    symmetry. apply Z.ltb_lt.
    change (time_micros (mktime 0 0 0 0)) with 0.
    unfold td_days, US_PER_DAY, US_PER_SECOND in *.
    destruct (is_leap y);
      [change (dbm true 1) with 0; change (dbm true 12) with 335
      |change (dbm false 1) with 0; change (dbm false 12) with 334]; lia.
Qed.

(** Scraped on 1 Jun, "15 Jun" is this year's. *)
Lemma resolve_in_june y t1 t2 :
  1000 <= y <= 9999 -> valid_time t2 = true ->
  resolve_event_date (combine (mkdate y 6 1) t1)
    (combine (mkdate y 6 1) t2) "15" "Jun"
  = Val (at_date y 6 15 0 0).
Proof.
  intros Y V. unfold resolve_event_date. cbn [year date_of].
  rewrite strptime_15_Jun by lia. cbn [bind].
  pose proof (valid_time_micros t2 V) as Tm.
  destruct (sub_spec (combine (mkdate y 6 1) t2) (td_days 60))
    as (limit & -> & L).
  - unfold valid_datetime. cbn [date_of time_of]. rewrite V, andb_true_r.
    unfold valid_date, MINYEAR, MAXYEAR. cbn [year month day].
    rewrite days_in_month_leap.
    repeat (apply andb_true_intro; split);
      first [apply Z.leb_le | apply Z.ltb_lt]; try lia.
    destruct (is_leap y); vm_compute; discriminate.
  - cbn. lia.
  - unfold td_days, US_PER_DAY, US_PER_SECOND. lia.
  - cbn [bind]. unfold lt. rewrite L. unfold at_date.
    rewrite !to_micros_at.
    replace (_ <? _) with false; [reflexivity|].
    symmetry. apply Z.ltb_ge.
    change (time_micros (mktime 0 0 0 0)) with 0.
    unfold td_days, US_PER_DAY, US_PER_SECOND in *.
    destruct (is_leap y);
      [change (dbm true 6) with 152|change (dbm false 6) with 151]; lia.
Qed.

Lemma valid_datetime_year dt :
  valid_datetime dt = true -> 1 <= year (date_of dt) <= 9999.
Proof.
  unfold valid_datetime. intros V. apply andb_prop in V.
  destruct V as [V _]. apply valid_date_month in V. apply V.
Qed.

End DateFacts.

Section YearInference.

Variable la_offset : Datetime.datetime -> Z.

Import ReFacts Datetime DatetimeFacts DateFacts.

(** C1. The year of an event's date. The parser first reads day and month
    with the year of the clock; if that fails it fails; if the date read
    lies more than 60 days before the clock it reads day and month again
    with the next year and takes the outcome, whatever it is; otherwise it
    keeps the date. There is no second correction: a date that comes out
    is in the clock's year or the next. On 20 Dec of a year Y, "5" "Jan"
    resolves to 5 Jan of Y+1; on 1 Jun of Y, "15" "Jun" resolves to 15 Jun
    of Y. *)
Theorem year_inference_policy :
  (forall now1 now2 date_text month_text,
     valid_datetime now1 = true -> valid_datetime now2 = true ->
     2 <= year (date_of now2) ->
     let Y := year (date_of now1) in
     let attempt y :=
       strptime_d_b_Y
         (date_text ++ " " ++ month_text ++ " " ++ Text.str_of_int y) in
     let resolved := resolve_event_date now1 now2 date_text month_text in
     (forall e, attempt Y = Raise e ->
        resolved = Raise e
        /\ forall title_text event_url,
             parse_event_details la_offset now1 now2 title_text date_text
               month_text event_url = None)
     /\ (forall d0, attempt Y = Val d0 ->
           td_days 60 < to_micros now2 - to_micros d0 ->
           resolved = attempt (Y + 1))
     /\ (forall d0, attempt Y = Val d0 ->
           to_micros now2 - to_micros d0 <= td_days 60 ->
           resolved = Val d0)
     /\ (forall d0, attempt Y = Val d0 -> year (date_of d0) = Y)
     /\ (forall d1, attempt (Y + 1) = Val d1 -> year (date_of d1) = Y + 1)
     /\ (forall dt, resolved = Val dt ->
           year (date_of dt) = Y \/ year (date_of dt) = Y + 1)
     /\ (forall title_text event_url ev,
           parse_event_details la_offset now1 now2 title_text date_text
             month_text event_url = Some ev ->
           exists dt,
             resolved = Val dt
             /\ date_of (wall (original_time ev)) = date_of dt))
  /\ (forall Y t1 t2,
        1000 <= Y <= 9998 -> valid_time t2 = true ->
        resolve_event_date (combine (mkdate Y 12 20) t1)
          (combine (mkdate Y 12 20) t2) "5" "Jan"
        = Val (at_date (Y + 1) 1 5 0 0))
  /\ (forall Y t1 t2,
        1000 <= Y <= 9999 -> valid_time t2 = true ->
        resolve_event_date (combine (mkdate Y 6 1) t1)
          (combine (mkdate Y 6 1) t2) "15" "Jun"
        = Val (at_date Y 6 15 0 0)).
Proof.
  split; [|split; [exact resolve_in_december|exact resolve_in_june]].
  intros now1 now2 date_text month_text V1 V2 Y2 Y attempt resolved.
  pose proof (valid_datetime_year now1 V1) as HY. fold Y in HY.
  destruct (sub_spec now2 (td_days 60) V2 Y2) as (limit & S & L).
  { unfold td_days, US_PER_DAY, US_PER_SECOND. lia. }
  assert (Yr : forall y d, 0 <= y <= 10000 -> attempt y = Val d ->
                 year (date_of d) = y).
  { intros y d Hy A. unfold attempt in A.
    rewrite <- (append_assoc date_text), <- append_assoc in A.
    now apply strptime_d_b_Y_year in A. }
  assert (R : resolved
              = (event_date <- attempt Y ;;
                 if lt event_date limit then attempt (Y + 1)
                 else Val event_date)).
  { unfold resolved, resolve_event_date. fold Y. fold (attempt Y).
    fold (attempt (Y + 1)). destruct (attempt Y); cbn [bind]; [|reflexivity].
    now rewrite S. }
  assert (Late : forall d0, td_days 60 < to_micros now2 - to_micros d0 ->
                   lt d0 limit = true).
  { intros d0 H. unfold lt. apply Z.ltb_lt. lia. }
  assert (Early : forall d0, to_micros now2 - to_micros d0 <= td_days 60 ->
                    lt d0 limit = false).
  { intros d0 H. unfold lt. apply Z.ltb_ge. lia. }
  repeat split.
  - rewrite R, H. reflexivity.
  - intros title_text event_url. unfold parse_event_details.
    destruct (Re.re_match title_pattern title_text) as [[rest g]|];
      [|reflexivity].
    fold resolved. rewrite R, H. destruct e; reflexivity.
  - intros d0 A H. rewrite R, A. cbn [bind]. now rewrite Late.
  - intros d0 A H. rewrite R, A. cbn [bind]. now rewrite Early.
  - intros d0 A. apply Yr; [lia|assumption].
  - intros d1 A. apply Yr; [lia|assumption].
  - intros dt E. rewrite R in E.
    destruct (attempt Y) as [d0|] eqn:A; cbn [bind] in E; [|discriminate].
    destruct (lt d0 limit).
    + right. apply Yr; [lia|assumption].
    + injection E as <-. left. apply Yr; [lia|assumption].
  - intros title_text event_url ev P.
    apply parse_event_details_inv in P.
    destruct P as (rest & g & ed & t & cal & _ & E & _ & _ & ->).
    exists ed. split; [exact E|reflexivity].
Qed.

End YearInference.

Lemma year_inference_policy_witness :
  resolve_event_date (at_date 2024 12 20 9 0) (at_date 2024 12 20 9 0)
    "5" "Jan"
  = Val (at_date 2025 1 5 0 0).
Proof.
  pose proof (proj1 (year_inference_policy pst_only)
                (at_date 2024 12 20 9 0) (at_date 2024 12 20 9 0)
                "5" "Jan" eq_refl eq_refl ltac:(cbn; lia)) as P.
  cbv zeta in P. destruct P as (_ & Roll & _).
  rewrite (Roll (at_date 2024 1 5 0 0)).
  - vm_compute. reflexivity.
  - vm_compute. reflexivity.
  - vm_compute. reflexivity.
Defined.

(** The second reading can fail where the first did not: 29 Feb of a leap
    year, read again with the next year. *)
Example leap_day_rolls_over_to_failure :
  resolve_event_date (at_date 2024 12 20 9 0) (at_date 2024 12 20 9 0)
    "29" "Feb"
  = Raise ValueError
  /\ Datetime.strptime_d_b_Y "29 Feb 2024" = Val (at_date 2024 2 29 0 0).
Proof. split; vm_compute; reflexivity. Qed.

(** * The clock *)

Module ClockFacts.
Import Datetime DatetimeFacts DateFacts.

(** With a clock that can be moved back 60 days, the date step in closed
    form. *)
Lemma resolve_event_date_eq now1 now2 date_text month_text :
  valid_datetime now2 = true -> 2 <= year (date_of now2) ->
  resolve_event_date now1 now2 date_text month_text
  = (event_date <-
       strptime_d_b_Y
         (date_text ++ " " ++ month_text ++ " "
          ++ Text.str_of_int (year (date_of now1))) ;;
     if to_micros event_date <? to_micros now2 - td_days 60
     then strptime_d_b_Y
            (date_text ++ " " ++ month_text ++ " "
             ++ Text.str_of_int (year (date_of now1) + 1))
     else Val event_date).
Proof.
  intros V Y. unfold resolve_event_date.
  destruct (sub_spec now2 (td_days 60) V Y) as (limit & S & L).
  { unfold td_days, US_PER_DAY, US_PER_SECOND. lia. }
  destruct (strptime_d_b_Y _) as [d0|]; cbn [bind]; [|reflexivity].
  rewrite S. cbn [bind]. unfold lt. now rewrite L.
Qed.

End ClockFacts.

(** C6 as the specification states it fails: the parser and the filter take
    no reference time as an argument, they read the clock, and with the
    same arguments they give different results at different times. *)
Lemma same_arguments_other_clock_other_result :
  parse_event_details pst_only (at_date 2024 1 10 9 0) (at_date 2024 1 10 9 0)
    "Tue 6:30 AM / Group Ride" "5" "Jan"
    (Some "https://www.strava.com/clubs/1/group_events/12345")
  <> parse_event_details pst_only (at_date 2024 12 20 9 0)
       (at_date 2024 12 20 9 0)
       "Tue 6:30 AM / Group Ride" "5" "Jan"
       (Some "https://www.strava.com/clubs/1/group_events/12345")
  /\ filter_events_by_date_range (at_pst 2024 6 1 9 0) [group_ride]
     <> filter_events_by_date_range (at_pst 2024 7 20 9 0) [group_ride].
Proof. split; vm_compute; discriminate. Qed.

Section Clock.

Variable la_offset : Datetime.datetime -> Z.

Import Datetime DatetimeFacts ClockFacts.

(** C6, as the code has it. The clock is read inside the parser and the
    filter; their results are functions of the arguments and of the
    readings. The parser depends on its two readings only through the year
    of the first and through whether the date read with that year lies more
    than 60 days before the second; the filter depends on its reading only
    through the instant, not through the tzinfo it is expressed in. Runs
    with the same arguments whose readings agree in that give the same
    result. *)
Theorem results_depend_on_clock_readings :
  (forall now1 now2 now1' now2' title_text date_text month_text event_url,
     valid_datetime now2 = true -> 2 <= year (date_of now2) ->
     valid_datetime now2' = true -> 2 <= year (date_of now2') ->
     year (date_of now1) = year (date_of now1') ->
     (forall d0,
        strptime_d_b_Y
          (date_text ++ " " ++ month_text ++ " "
           ++ Text.str_of_int (year (date_of now1))) = Val d0 ->
        (td_days 60 < to_micros now2 - to_micros d0
         <-> td_days 60 < to_micros now2' - to_micros d0)) ->
     parse_event_details la_offset now1 now2 title_text date_text month_text
       event_url
     = parse_event_details la_offset now1' now2' title_text date_text
         month_text event_url)
  /\ (forall now now' events,
        valid_datetime (wall now) = true ->
        year (date_of (wall now)) <= 9998 ->
        valid_datetime (wall now') = true ->
        year (date_of (wall now')) <= 9998 ->
        utc_micros now = utc_micros now' ->
        filter_events_by_date_range now events
        = filter_events_by_date_range now' events).
Proof.
  split.
  - intros * V Y V' Y' E H. unfold parse_event_details.
    rewrite (resolve_event_date_eq now1 now2) by assumption.
    rewrite (resolve_event_date_eq now1' now2') by assumption.
    rewrite <- E.
    destruct (strptime_d_b_Y _) as [d0|] eqn:A; cbn [bind]; [|reflexivity].
    specialize (H d0 eq_refl).
    replace (to_micros d0 <? to_micros now2' - td_days 60)
      with (to_micros d0 <? to_micros now2 - td_days 60); [reflexivity|].
    destruct (Z.ltb_spec (to_micros d0) (to_micros now2 - td_days 60)),
      (Z.ltb_spec (to_micros d0) (to_micros now2' - td_days 60));
      auto; lia.
  - intros * V Y V' Y' E.
    rewrite !filter_events_by_date_range_eq by assumption.
    now rewrite E.
Qed.

End Clock.

Lemma results_depend_on_clock_readings_witness :
  filter_events_by_date_range (at_pst 2024 6 1 9 0) [group_ride]
  = filter_events_by_date_range
      (Datetime.mkaware (at_date 2024 6 1 10 0)
         (Datetime.mktz pacific_zone (-420)))
      [group_ride].
Proof.
  apply (proj2 (results_depend_on_clock_readings pst_only));
    first [reflexivity | cbn; lia].
Defined.

(** * More of the scraper *)

(** ** The calendar, both ways *)

Module CalendarFacts.
Import Datetime DatetimeFacts.

Definition months : list Z := [1; 2; 3; 4; 5; 6; 7; 8; 9; 10; 11; 12].

Definition months_apart (leap : bool) : bool :=
  forallb (fun m1 =>
    forallb (fun m2 =>
      negb (m1 <? m2) || (dbm leap m1 + dim leap m1 <=? dbm leap m2))
      months) months.

Lemma months_apart_all : months_apart true && months_apart false = true.
Proof. vm_compute. reflexivity. Qed.

Lemma dbm_apart leap m1 m2 :
  In m1 months -> In m2 months -> m1 < m2 ->
  dbm leap m1 + dim leap m1 <= dbm leap m2.
Proof.
  intros I1 I2 L. pose proof months_apart_all as A.
  apply andb_prop in A.
  assert (B : months_apart leap = true) by (destruct leap; tauto).
  unfold months_apart in B. rewrite forallb_forall in B.
  specialize (B m1 I1). rewrite forallb_forall in B. specialize (B m2 I2).
  apply orb_prop in B. destruct B as [B|B].
  - apply negb_true_iff, Z.ltb_ge in B. lia.
  - now apply Z.leb_le.
Qed.

Lemma toordinal_inj d1 d2 :
  valid_date d1 = true -> valid_date d2 = true ->
  toordinal d1 = toordinal d2 -> d1 = d2.
Proof.
  intros V1 V2 E.
  pose proof (toordinal_bounds d1 V1) as B1.
  pose proof (toordinal_bounds d2 V2) as B2.
  assert (Y : year d1 = year d2).
  { destruct (Z.lt_trichotomy (year d1) (year d2)) as [L|[L|L]]; auto.
    - pose proof (days_before_year_mono (year d1 + 1) (year d2)
                    ltac:(lia)). lia.
    - pose proof (days_before_year_mono (year d2 + 1) (year d1)
                    ltac:(lia)). lia. }
  apply valid_date_month in V1, V2.
  destruct V1 as (_ & M1 & D1), V2 as (_ & M2 & D2).
  unfold toordinal, ymd2ord in E.
  rewrite !days_before_month_leap in E. rewrite days_in_month_leap in D1, D2.
  rewrite Y in *. set (leap := is_leap (year d2)) in *.
  assert (M : month d1 = month d2).
  { destruct (Z.lt_trichotomy (month d1) (month d2)) as [L|[L|L]]; auto.
    - pose proof (dbm_apart leap _ _ M1 M2 L). lia.
    - pose proof (dbm_apart leap _ _ M2 M1 L). lia. }
  rewrite M in E. destruct d1, d2; cbn in *. f_equal; lia.
Qed.

Lemma valid_date_ordinal d :
  valid_date d = true -> 1 <= toordinal d <= MAXORDINAL.
Proof.
  intros V. pose proof (toordinal_bounds d V) as B.
  apply valid_date_month in V. destruct V as ([Y1 Y2] & _).
  unfold MINYEAR, MAXYEAR in *.
  pose proof (days_before_year_mono 1 (year d) Y1) as M1.
  pose proof (days_before_year_mono (year d + 1) 10000 ltac:(lia)) as M2.
  change (days_before_year 1) with 0 in M1.
  change (days_before_year 10000) with 3652059 in M2.
  unfold MAXORDINAL. lia.
Qed.

(** The other round trip: the date of the ordinal of a valid date. *)
Lemma fromordinal_toordinal d :
  valid_date d = true -> fromordinal (toordinal d) = d.
Proof.
  intros V. pose proof (valid_date_ordinal d V) as B.
  apply toordinal_inj; auto.
  - now apply fromordinal_valid.
  - apply toordinal_fromordinal. lia.
Qed.

Lemma time_micros_inj t1 t2 :
  valid_time t1 = true -> valid_time t2 = true ->
  time_micros t1 = time_micros t2 -> t1 = t2.
Proof.
  unfold valid_time, time_micros, US_PER_SECOND. intros V1 V2 E.
  repeat (apply andb_prop in V1; destruct V1 as [V1 ?]).
  repeat (apply andb_prop in V2; destruct V2 as [V2 ?]).
  destruct t1, t2; cbn in *. f_equal; lia.
Qed.

(** Valid datetimes are told apart by their place on the time line. *)
Lemma to_micros_inj a b :
  valid_datetime a = true -> valid_datetime b = true ->
  to_micros a = to_micros b -> a = b.
Proof.
  unfold valid_datetime. intros Va Vb E.
  apply andb_prop in Va, Vb. destruct Va as [Da Ta], Vb as [Db Tb].
  pose proof (valid_time_micros _ Ta). pose proof (valid_time_micros _ Tb).
  unfold to_micros in E. unfold US_PER_DAY, US_PER_SECOND in *.
  assert (toordinal (date_of a) = toordinal (date_of b)) by lia.
  assert (time_micros (time_of a) = time_micros (time_of b)) by lia.
  destruct a, b; cbn in *. f_equal.
  - now apply toordinal_inj.
  - now apply time_micros_inj.
Qed.

(** Adding back what was subtracted gives the datetime one started from. *)
Lemma add_sub_cancel dt td r :
  valid_datetime dt = true -> sub dt td = Val r -> add r td = Val dt.
Proof.
  intros V S. unfold sub in S. apply add_spec in S.
  destruct S as (E & Vr & _).
  destruct (add_returns r td) as [dt' A].
  { rewrite E. replace (to_micros dt + - td + td) with (to_micros dt) by lia.
    now apply valid_representable. }
  rewrite A. f_equal. pose proof (add_spec _ _ _ A) as (E' & V' & _).
  apply to_micros_inj; auto. lia.
Qed.

Lemma new_datetime_valid y m d H Mi dt :
  new_datetime y m d H Mi = Val dt ->
  valid_datetime dt = true /\ dt = combine (mkdate y m d) (mktime H Mi 0 0).
Proof.
  unfold new_datetime.
  destruct (valid_datetime (combine (mkdate y m d) (mktime H Mi 0 0))) eqn:V;
    [|discriminate].
  intros E. injection E as <-. auto.
Qed.

Lemma strptime_d_b_Y_valid data dt :
  strptime_d_b_Y data = Val dt -> valid_datetime dt = true.
Proof.
  unfold strptime_d_b_Y. destruct (strptime_groups re_d_b_Y data) as [c|];
    cbn [bind]; [|discriminate].
  destruct (index_of _ _ _); [|discriminate].
  intros E. now apply new_datetime_valid in E.
Qed.

Lemma strptime_I_M_p_valid data dt :
  strptime_I_M_p data = Val dt ->
  valid_datetime dt = true
  /\ second (time_of dt) = 0 /\ microsecond (time_of dt) = 0.
Proof.
  unfold strptime_I_M_p. destruct (strptime_groups re_I_M_p data) as [c|];
    cbn [bind]; [|discriminate].
  intros E. apply new_datetime_valid in E. destruct E as [V ->]. auto.
Qed.

Lemma resolve_event_date_valid now1 now2 date_text month_text dt :
  resolve_event_date now1 now2 date_text month_text = Val dt ->
  valid_datetime dt = true.
Proof.
  unfold resolve_event_date.
  destruct (strptime_d_b_Y _) as [d0|] eqn:A; cbn [bind]; [|discriminate].
  destruct (sub now2 (td_days 60)) as [limit|]; cbn [bind]; [|discriminate].
  destruct (Datetime.lt d0 limit).
  - apply strptime_d_b_Y_valid.
  - intros E. injection E as <-. now apply strptime_d_b_Y_valid in A.
Qed.


(** Moving a time on whole minutes keeps it on whole minutes. *)
Lemma add_whole_minutes dt n r :
  valid_datetime dt = true ->
  second (time_of dt) = 0 -> microsecond (time_of dt) = 0 ->
  add dt (td_minutes n) = Val r ->
  second (time_of r) = 0 /\ microsecond (time_of r) = 0.
Proof.
  intros V S0 U0. unfold add. cbv zeta.
  destruct (_ && _); [|discriminate]. intros E. injection E as <-.
  cbn [time_of second microsecond].
  unfold valid_datetime in V. apply andb_prop in V. destruct V as [_ V].
  unfold valid_time in V.
  repeat (apply andb_prop in V; destruct V as [V ?]).
  unfold to_micros, time_micros, td_minutes, US_PER_DAY, US_PER_SECOND.
  rewrite S0, U0.
  set (o := toordinal (date_of dt)). set (h := hour (time_of dt)).
  set (mi := minute (time_of dt)).
  replace (o * (86400 * 1000000) + ((h * 3600 + mi * 60 + 0) * 1000000 + 0)
           + n * 60 * 1000000)
    with ((o * 1440 + h * 60 + mi + n) * 60000000) by lia.
  set (k := o * 1440 + h * 60 + mi + n).
  split; Z.to_euclidean_division_equations; lia.
Qed.

End CalendarFacts.

(** ** Events the parser made *)

Section ParsedEvents.

Variable la_offset : Datetime.datetime -> Z.
Variable uri_accepted : string -> bool.

Import CalendarFacts.

(** An event the parser returned, for some row and clock. *)
Definition parsed (ev : event) : Prop :=
  exists now1 now2 title_text date_text month_text event_url,
    parse_event_details la_offset now1 now2 title_text date_text month_text
      event_url = Some ev.

Lemma parsed_original_valid ev :
  parsed ev ->
  Datetime.valid_datetime (Datetime.wall (original_time ev)) = true
  /\ Datetime.second (Datetime.time_of (Datetime.wall (original_time ev))) = 0
  /\ Datetime.microsecond
       (Datetime.time_of (Datetime.wall (original_time ev))) = 0
  /\ Datetime.aware_sub (original_time ev) (Datetime.td_minutes 30)
     = Val (datetime ev).
Proof.
  intros (now1 & now2 & t & d & m & u & P).
  apply parse_event_details_inv in P.
  destruct P as (rest & g & ed & tm & cal & _ & R & T & S & ->).
  cbn [original_time datetime]. unfold localize at 1 2 3.
  cbn [Datetime.wall].
  apply resolve_event_date_valid in R. apply strptime_I_M_p_valid in T.
  destruct T as (Vt & S0 & U0). unfold Datetime.valid_datetime in *.
  cbn [Datetime.date_of Datetime.time_of]. apply andb_prop in R, Vt.
  destruct R as [Rd _], Vt as [_ Vt]. rewrite Rd, Vt. auto.
Qed.

(** The entry of a parsed event can always be closed: half an hour after
    its start is the ride time itself. *)
Lemma parsed_end_is_ride_time ev :
  parsed ev ->
  Datetime.aware_add (datetime ev) (Datetime.td_minutes 30)
  = Val (original_time ev).
Proof.
  intros P. destruct (parsed_original_valid ev P) as (V & _ & _ & S).
  unfold Datetime.aware_sub, Datetime.aware_add in S.
  destruct (Datetime.add (Datetime.wall (original_time ev))
              (- Datetime.td_minutes 30)) as [w|] eqn:A;
    cbn [bind] in S; [|discriminate].
  injection S as <-. unfold Datetime.aware_add.
  cbn [Datetime.wall Datetime.tz].
  rewrite (add_sub_cancel (Datetime.wall (original_time ev))
             (Datetime.td_minutes 30) w V A).
  cbn [bind]. now destruct (original_time ev).
Qed.

(** X1. Both times of a parsed event are valid calendar times on a whole
    minute. *)
Theorem parsed_event_is_well_formed ev :
  parsed ev ->
  Datetime.valid_datetime (Datetime.wall (original_time ev)) = true
  /\ Datetime.valid_datetime (Datetime.wall (datetime ev)) = true
  /\ Datetime.second (Datetime.time_of (Datetime.wall (original_time ev))) = 0
  /\ Datetime.microsecond
       (Datetime.time_of (Datetime.wall (original_time ev))) = 0
  /\ Datetime.second (Datetime.time_of (Datetime.wall (datetime ev))) = 0
  /\ Datetime.microsecond
       (Datetime.time_of (Datetime.wall (datetime ev))) = 0.
Proof.
  intros P. destruct (parsed_original_valid ev P) as (V & S0 & U0 & S).
  unfold Datetime.aware_sub, Datetime.aware_add in S.
  destruct (Datetime.add (Datetime.wall (original_time ev))
              (- Datetime.td_minutes 30)) as [w|] eqn:A;
    cbn [bind] in S; [|discriminate].
  injection S as <-. cbn [Datetime.wall].
  pose proof (DatetimeFacts.add_spec _ _ _ A) as (_ & Vw & _).
  change (- Datetime.td_minutes 30) with (Datetime.td_minutes (-30)) in A.
  destruct (add_whole_minutes _ _ _ V S0 U0 A). repeat split; assumption.
Qed.

(** The loop of the assembler on events the parser made: the end of an
    entry is always there, so the loop raises only for want of a URL. *)
Lemma add_events_on_parsed stamp events i :
  Forall parsed events ->
  match add_events stamp i events with
  | Val entries =>
      Forall2 (fun e ps =>
                 prop "dtstart" ps = Some (VAware (datetime e))
                 /\ prop "dtend" ps = Some (VAware (original_time e)))
              events entries
  | Raise _ => forallb (has_accepted_url uri_accepted) events = false
  end.
Proof.
  intros H. revert i.
  induction H as [|e events P _ IH]; intros i; cbn [add_events].
  - constructor.
  - rewrite (parsed_end_is_ride_time e P). cbn [bind forallb].
    unfold has_accepted_url at 1.
    destruct (url e) as [u|]; cbn [bind]; [|reflexivity].
    specialize (IH (S i)).
    destruct (add_events stamp (S i) events) as [rest|]; cbn [bind].
    + constructor; [|exact IH]. split; reflexivity.
    + rewrite IH. apply andb_false_r.
Qed.

(** The assembler on events the parser made returns exactly when every
    event has a URL that [icalendar] takes. *)
Lemma generate_on_parsed stamp events :
  Forall parsed events ->
  if forallb (has_accepted_url uri_accepted) events
  then exists cal,
         generate_ics_calendar uri_accepted stamp events = Val cal
         /\ cal_properties cal = calendar_header
         /\ Forall2 (fun e ps =>
                       prop "dtstart" ps = Some (VAware (datetime e))
                       /\ prop "dtend" ps = Some (VAware (original_time e)))
                    events (cal_events cal)
  else exists e, generate_ics_calendar uri_accepted stamp events = Raise e.
Proof.
  intros H. unfold generate_ics_calendar.
  pose proof (add_events_on_parsed stamp events 0%nat H) as A.
  destruct (add_events stamp 0 events) as [entries|e] eqn:E; cbn [bind].
  - rewrite (add_events_accepted uri_accepted _ _ _ _ E).
    destruct (forallb (has_accepted_url uri_accepted) events); eauto.
  - rewrite A. eauto.
Qed.

(** X2. On events the parser made the assembler returns exactly when every
    event has a URL and [icalendar] takes it: an event of a row whose
    anchor has no href, or whose URL is refused, makes it raise. When it
    returns, the entry of each event runs from 30 minutes before the ride
    to the ride time itself. *)
Theorem entry_ends_at_ride_time stamp events :
  Forall parsed events ->
  (forallb (has_accepted_url uri_accepted) events = true ->
   exists cal,
     generate_ics_calendar uri_accepted stamp events = Val cal
     /\ Forall2 (fun e ps =>
                   prop "dtstart" ps = Some (VAware (datetime e))
                   /\ prop "dtend" ps = Some (VAware (original_time e)))
                events (cal_events cal))
  /\ (forallb (has_accepted_url uri_accepted) events = false ->
      exists e, generate_ics_calendar uri_accepted stamp events = Raise e).
Proof.
  intros H. pose proof (generate_on_parsed stamp events H) as G.
  split; intros F; rewrite F in G.
  - destruct G as (cal & E & _ & A). eauto.
  - exact G.
Qed.

(** X3. In terms of the ride time the filter keeps a parsed event when the
    ride starts at least 30 minutes after the clock and at most four weeks
    and 30 minutes after it: a ride that starts within the next half hour
    is dropped. *)
Theorem filter_window_in_ride_time now events :
  Datetime.valid_datetime (Datetime.wall now) = true ->
  Datetime.year (Datetime.date_of (Datetime.wall now)) <= 9998 ->
  Forall parsed events ->
  exists kept,
    filter_events_by_date_range now events = Val kept
    /\ (forall e,
          In e kept <->
          In e events
          /\ Datetime.utc_micros now + Datetime.td_minutes 30
             <= Datetime.utc_micros (original_time e)
             <= Datetime.utc_micros now + Datetime.td_weeks 4
                + Datetime.td_minutes 30)
    /\ (forall e,
          Datetime.utc_micros now <= Datetime.utc_micros (original_time e)
          < Datetime.utc_micros now + Datetime.td_minutes 30 ->
          ~ In e kept).
Proof.
  intros V Y P. rewrite (filter_events_by_date_range_eq now events V Y).
  eexists. split; [reflexivity|].
  assert (I : forall e,
             In e (filter (fun e =>
                      (Datetime.utc_micros now
                       <=? Datetime.utc_micros (datetime e))
                      && (Datetime.utc_micros (datetime e)
                          <=? Datetime.utc_micros now + Datetime.td_weeks 4))
                     events)
             <-> In e events
                 /\ Datetime.utc_micros now + Datetime.td_minutes 30
                    <= Datetime.utc_micros (original_time e)
                    <= Datetime.utc_micros now + Datetime.td_weeks 4
                       + Datetime.td_minutes 30).
  { intros e. rewrite filter_In, andb_true_iff, Z.leb_le, Z.leb_le.
    split; intros [Ie H]; (split; [exact Ie|]);
      rewrite Forall_forall in P;
      pose proof (parsed_end_is_ride_time e (P e Ie)) as A;
      apply AwareFacts.aware_add_spec in A; destruct A as (_ & _ & U & _);
      lia. }
  split; [exact I|].
  intros e H K. apply I in K. lia.
Qed.

(** The events one row contributes. *)
Definition row_events (r : observed_row) : list event :=
  match scrape_row la_offset r with
  | Val (Some ev) => [ev]
  | _ => []
  end.

Lemma scrape_fold rows acc :
  fold_left (scrape_step la_offset) rows acc
  = (acc ++ flat_map row_events rows)%list.
Proof.
  revert acc. induction rows as [|r rows IH]; intros acc; cbn [fold_left].
  - cbn. now rewrite app_nil_r.
  - rewrite IH. cbn [flat_map]. unfold scrape_step, row_events.
    destruct (scrape_row la_offset r) as [[ev|]|]; cbn [app];
      rewrite <- ?app_assoc; reflexivity.
Qed.

Lemma scrape_club_events_flat_map rows :
  scrape_club_events la_offset rows = flat_map row_events rows.
Proof. unfold scrape_club_events. now rewrite scrape_fold. Qed.

Lemma scrape_row_parsed r ev :
  scrape_row la_offset r = Val (Some ev) -> parsed ev.
Proof.
  destruct r as [elems [now1 now2]]. unfold scrape_row.
  destruct (find_element (title_link elems)) as [link|]; cbn [bind];
    [|discriminate].
  destruct (find_element (date_elem elems)) as [d|]; cbn [bind];
    [|discriminate].
  destruct (find_element (month_elem elems)) as [m|]; cbn [bind];
    [|discriminate].
  intros E. injection E as E. red. eauto 10.
Qed.

Lemma collect_fold clubs acc :
  fold_left (fun events club =>
               (events ++ scrape_club_events la_offset club)%list) clubs acc
  = (acc ++ flat_map (scrape_club_events la_offset) clubs)%list.
Proof.
  revert acc. induction clubs as [|c clubs IH]; intros acc; cbn [fold_left].
  - cbn. now rewrite app_nil_r.
  - rewrite IH. cbn [flat_map]. now rewrite app_assoc.
Qed.

(** X4. The row loop keeps, in the order of the rows, exactly the events of
    the rows that parse: never more events than rows, each of them made by
    the parser; and the events of a run are those of all rows in order,
    however the rows are spread over the clubs. *)
Theorem scraped_events_follow_rows :
  (forall rows ev,
     In ev (scrape_club_events la_offset rows) <->
     exists r, In r rows /\ scrape_row la_offset r = Val (Some ev))
  /\ (forall rows,
        (List.length (scrape_club_events la_offset rows)
         <= List.length rows)%nat)
  /\ (forall rows, Forall parsed (scrape_club_events la_offset rows))
  /\ (forall clubs,
        collect_events la_offset clubs
        = scrape_club_events la_offset (List.concat clubs)).
Proof.
  assert (M : forall rows ev,
             In ev (scrape_club_events la_offset rows) <->
             exists r, In r rows /\ scrape_row la_offset r = Val (Some ev)).
  { intros rows ev. rewrite scrape_club_events_flat_map, in_flat_map.
    split; intros (r & Ir & H); exists r; (split; [exact Ir|]).
    - unfold row_events in H.
      destruct (scrape_row la_offset r) as [[e|]|]; try contradiction.
      destruct H as [->|[]]. reflexivity.
    - unfold row_events. rewrite H. now left. }
  repeat split.
  - apply M.
  - apply M.
  - intros rows. rewrite scrape_club_events_flat_map.
    induction rows as [|r rows IH]; cbn [flat_map]; [cbn; lia|].
    rewrite length_app. unfold row_events at 1.
    destruct (scrape_row la_offset r) as [[e|]|]; cbn [List.length]; lia.
  - intros rows. apply Forall_forall. intros ev I. apply M in I.
    destruct I as (r & _ & H). now apply scrape_row_parsed in H.
  - intros clubs. unfold collect_events. rewrite collect_fold. cbn [app].
    rewrite scrape_club_events_flat_map.
    induction clubs as [|c clubs IH]; cbn [flat_map List.concat]; [reflexivity|].
    now rewrite flat_map_app, IH, scrape_club_events_flat_map.
Qed.


Lemma add_events_length stamp i events entries :
  add_events stamp i events = Val entries ->
  List.length entries = List.length events.
Proof.
  revert i entries. induction events as [|e events IH]; intros i entries H;
    cbn [add_events] in H.
  - injection H as <-. reflexivity.
  - destruct (Datetime.aware_add _ _); cbn [bind] in H; [|discriminate].
    destruct (url e); cbn [bind] in H; [|discriminate].
    destruct (add_events stamp (S i) events) as [rest|] eqn:R;
      cbn [bind] in H; [|discriminate].
    injection H as <-. cbn. f_equal. eauto.
Qed.


(** X6. [run] never writes a calendar without entries, and never writes one
    when it returns False. *)
Theorem run_never_writes_empty clubs now stamp cal :
  written (run la_offset uri_accepted clubs now stamp) = Some cal ->
  cal_events cal <> []
  /\ returned (run la_offset uri_accepted clubs now stamp) = true.
Proof.
  unfold run. destruct clubs as [|c clubs]; [discriminate|].
  destruct (filter_events_by_date_range now _) as [kept|]; cbn [bind];
    [|discriminate].
  destruct kept as [|e kept]; [discriminate|].
  destruct (generate_ics_calendar uri_accepted stamp (e :: kept))
    as [cal'|] eqn:G; cbn [bind written returned]; [|discriminate].
  intros H. injection H as <-. split; [|reflexivity].
  unfold generate_ics_calendar in G.
  destruct (add_events stamp 0 (e :: kept)) as [entries|] eqn:A;
    cbn [bind] in G; [|discriminate].
  destruct (forallb (entry_accepted uri_accepted) entries); [|discriminate].
  injection G as <-. cbn [cal_events].
  apply add_events_length in A. destruct entries; [discriminate|congruence].
Qed.

End ParsedEvents.

(** ** Stripped text *)

Module StripFacts.
Import Text ReFacts TextFacts.

Lemma lstrip_starts_outside s : Re.starts_outside is_space (lstrip s).
Proof.
  induction s as [|a s IH]; cbn; [exact I|].
  destruct (is_space a) eqn:E; [exact IH|exact E].
Qed.

(** [lstrip] takes blanks off the front. *)
Lemma lstrip_split s :
  exists ws, s = ws ++ lstrip s /\ all_chars is_space ws = true.
Proof.
  induction s as [|a s (ws & E & W)]; cbn.
  - now exists "".
  - destruct (is_space a) eqn:A.
    + exists (String a ws). cbn. rewrite A, W. now rewrite <- E.
    + now exists "".
Qed.

Lemma rev_string_append a b :
  rev_string "" (a ++ b) = rev_string "" b ++ rev_string "" a.
Proof.
  induction a as [|c a IH]; cbn.
  - now rewrite append_nil_r.
  - rewrite (rev_string_app (String c "")), IH,
      (rev_string_app (String c "") a), append_assoc. reflexivity.
Qed.

Lemma rev_string_involutive s : rev_string "" (rev_string "" s) = s.
Proof. apply (rev_string_rev "" s). Qed.

Lemma starts_outside_app p a b :
  a <> "" -> Re.starts_outside p (a ++ b) -> Re.starts_outside p a.
Proof. destruct a; [congruence|auto]. Qed.

(** What [strip] returns has no blank at either end. *)
Lemma strip_outside s :
  Re.starts_outside is_space (strip s) /\ ends_outside is_space (strip s).
Proof.
  unfold strip, ends_outside. rewrite rev_string_involutive.
  split; [|apply lstrip_starts_outside].
  destruct (lstrip_split (rev_string "" (lstrip s))) as (ws & E & W).
  set (u := lstrip (rev_string "" (lstrip s))) in *.
  destruct (rev_string "" u) eqn:R; [exact I|]. rewrite <- R.
  apply (starts_outside_app _ _ (rev_string "" ws)); [congruence|].
  rewrite <- rev_string_append, <- E, rev_string_involutive.
  apply lstrip_starts_outside.
Qed.

Lemma startswith_true c s : startswith c s = true -> exists t, s = String c t.
Proof.
  destruct s as [|a s]; cbn; [discriminate|]. intros E.
  apply Ascii.eqb_eq in E. subst. eauto.
Qed.

End StripFacts.

(** X7. [load_club_urls]: without the file there is no URL; with it, the
    URLs are the stripped lines, in order, of the lines that are not blank
    and do not start with '#'. No URL is empty or has a blank, or a line
    end, at either end. The test for '#' is on the line as read: an
    indented comment is returned as a URL. *)
Theorem club_urls_are_stripped_lines :
  load_club_urls None = []
  /\ (forall lines u,
        In u (load_club_urls (Some lines)) ->
        u <> "" /\ Re.starts_outside Text.is_space u
        /\ ends_outside Text.is_space u
        /\ exists line, In line lines /\ u = Text.strip line
                        /\ startswith "#" line = false)
  /\ (forall lines line,
        In line lines -> Text.strip line <> "" -> startswith "#" line = false ->
        In (Text.strip line) (load_club_urls (Some lines)))
  /\ (forall a b,
        load_club_urls (Some (a ++ b)%list)
        = (load_club_urls (Some a) ++ load_club_urls (Some b))%list)
  /\ load_club_urls
       (Some ["# my clubs" ++ String (ascii_of_nat 10) "";
              String (ascii_of_nat 10) "";
              "https://www.strava.com/clubs/1  " ++ String (ascii_of_nat 10) "";
              "  # not a comment" ++ String (ascii_of_nat 10) ""])
     = ["https://www.strava.com/clubs/1"; "# not a comment"].
Proof.
  split; [reflexivity|]. split; [|split; [|split]].
  - intros lines u H. cbn [load_club_urls] in H. apply in_map_iff in H.
    destruct H as (line & <- & H). apply filter_In in H.
    destruct H as [I H]. apply andb_prop in H. destruct H as [H1 H2].
    apply negb_true_iff in H1, H2. apply String.eqb_neq in H1.
    destruct (StripFacts.strip_outside line). repeat split; eauto.
  - intros lines line I N S. cbn [load_club_urls]. apply in_map.
    apply filter_In. split; [exact I|].
    apply String.eqb_neq in N. now rewrite N, S.
  - intros a b. cbn [load_club_urls]. now rewrite filter_app, map_app.
  - reflexivity.
Qed.

(** ** The identifier *)

Module SplitFacts.
Import Text ReFacts TextFacts TitleFacts StripFacts.

Lemma contains_char_rev c acc s :
  contains_char c (rev_string acc s)
  = contains_char c s || contains_char c acc.
Proof.
  revert acc. induction s as [|a s IH]; intros acc; cbn; [reflexivity|].
  rewrite IH. cbn. destruct (Ascii.eqb a c), (contains_char c s),
    (contains_char c acc); reflexivity.
Qed.

(** No piece of a split holds the separator. *)
Lemma split_go_pieces sep cur s :
  contains_char sep cur = false ->
  Forall (fun piece => contains_char sep piece = false) (split_go sep cur s).
Proof.
  revert cur. induction s as [|a s IH]; intros cur H; cbn.
  - constructor; [|constructor]. now rewrite contains_char_rev, H.
  - destruct (Ascii.eqb a sep) eqn:E.
    + constructor; [now rewrite contains_char_rev, H|]. now apply IH.
    + apply IH. cbn. now rewrite E, H.
Qed.

Lemma last_in (l : list string) d : l <> [] -> In (List.last l d) l.
Proof.
  induction l as [|x l IH]; [congruence|]. intros _.
  destruct l as [|y l]; [now left|]. right. apply IH. discriminate.
Qed.

Lemma last_item_no_sep sep s :
  contains_char sep (last_item (split sep s)) = false.
Proof.
  pose proof (split_go_pieces sep "" s eq_refl) as F.
  rewrite Forall_forall in F. apply F. apply last_in, split_go_nonempty.
Qed.

(** The last piece is the whole text, or what follows its last
    separator. *)
Lemma split_go_decompose sep cur s :
  (contains_char sep s = false
   /\ List.last (split_go sep cur s) "" = rev_string "" cur ++ s)
  \/ (exists pre, s = pre ++ String sep (List.last (split_go sep cur s) "")).
Proof.
  revert cur. induction s as [|a s IH]; intros cur; cbn [split_go].
  - left. cbn. now rewrite append_nil_r.
  - destruct (Ascii.eqb a sep) eqn:E.
    + apply Ascii.eqb_eq in E. subst a. right.
      assert (L : List.last (rev_string "" cur :: split_go sep "" s) ""
                  = List.last (split_go sep "" s) "").
      { cbn. destruct (split_go sep "" s) eqn:S; [|reflexivity].
        now apply split_go_nonempty in S. }
      rewrite L. destruct (IH "") as [[N ->]|[pre P]].
      * now exists "".
      * exists (String sep pre). cbn. now rewrite <- P.
    + destruct (IH (String a cur)) as [[N L]|[pre P]].
      * left. cbn. rewrite E, N, L. cbn.
        rewrite (rev_string_app (String a "")), append_assoc. auto.
      * right. exists (String a pre). cbn. now rewrite <- P.
Qed.

Lemma append_cancel_l (c a b : string) : c ++ a = c ++ b -> a = b.
Proof. induction c; cbn; intros E; [assumption|injection E; auto]. Qed.

Lemma append_cancel_r (a b c : string) : a ++ c = b ++ c -> a = b.
Proof.
  intros E. apply (f_equal (rev_string "")) in E.
  rewrite !rev_string_append in E. apply append_cancel_l in E.
  apply (f_equal (rev_string "")) in E.
  now rewrite !rev_string_involutive in E.
Qed.

End SplitFacts.

(** X8. The identifier for every URL: it is the text after the last slash
    (the whole URL when there is none) followed by the suffix, it holds no
    slash, and two URLs share it exactly when that text is the same. *)
Theorem uid_is_last_segment :
  (forall u,
     let seg := Text.last_item (Text.split "/" u) in
     event_uid u = seg ++ "@strava-scraper"
     /\ Text.contains_char "/" seg = false
     /\ Text.contains_char "/" (event_uid u) = false
     /\ (u = seg \/ exists pre, u = pre ++ "/" ++ seg))
  /\ (forall u1 u2,
        event_uid u1 = event_uid u2 <->
        Text.last_item (Text.split "/" u1)
        = Text.last_item (Text.split "/" u2)).
Proof.
  split.
  - intros u seg. pose proof (SplitFacts.last_item_no_sep "/" u) as N.
    fold seg in N. repeat split; auto.
    + unfold event_uid. fold seg.
      now rewrite TitleFacts.contains_char_app, N.
    + destruct (SplitFacts.split_go_decompose "/" "" u) as [[_ L]|[pre P]].
      * left. symmetry. exact L.
      * right. exists pre. exact P.
  - intros u1 u2. unfold event_uid. split.
    + apply SplitFacts.append_cancel_r.
    + now intros ->.
Qed.

Section Names.

Variable la_offset : Datetime.datetime -> Z.

Import StripFacts.

(** X9. The name of a parsed event has no blank at either end. It can be
    empty: a title that ends in blanks after the slash parses. *)
Theorem event_name_is_stripped :
  (forall ev, parsed la_offset ev ->
     Re.starts_outside Text.is_space (name ev)
     /\ ends_outside Text.is_space (name ev))
  /\ (exists ev,
        parse_event_details la_offset (at_date 2024 6 1 9 0)
          (at_date 2024 6 1 9 0) "Tue 6:30 AM /  " "15" "Jun" (Some "u")
        = Some ev
        /\ name ev = "").
Proof.
  split.
  - intros ev (now1 & now2 & t & d & m & u & P).
    apply parse_event_details_inv in P.
    destruct P as (rest & g & ed & tm & cal & _ & _ & _ & _ & ->).
    cbn [name]. apply strip_outside.
  - unfold parse_event_details.
    change (Re.re_match title_pattern "Tue 6:30 AM /  ")
      with (Some ("", [(4%nat, " "); (3%nat, "AM"); (2%nat, "6:30");
                       (1%nat, "Tue")])).
    cbv beta iota.
    change (resolve_event_date (at_date 2024 6 1 9 0) (at_date 2024 6 1 9 0)
              "15" "Jun") with (Val (at_date 2024 6 15 0 0)).
    change (Datetime.strptime_I_M_p _) with (Val (at_date 1900 1 1 6 30)).
    cbn [except_ValueError Datetime.date_of Datetime.time_of at_date].
    destruct (Datetime.aware_sub _ _) as [cal|] eqn:S.
    + cbn [bind except_Exception]. eexists. split; [reflexivity|reflexivity].
    + exfalso. unfold Datetime.aware_sub, Datetime.aware_add, localize in S.
      cbn [Datetime.wall] in S.
      change (Datetime.add _ _) with (Val (at_date 2024 6 15 6 0)) in S.
      discriminate S.
Qed.

End Names.

(** ** The time of day *)

(** A time of day as a title writes it: the hour with or without a leading
    zero, the minute with two digits. *)
Definition am_pm_text (pm : bool) : string := if pm then "PM" else "AM".

Definition hour_text (pad : bool) (h : Z) : string :=
  if pad then Text.two_digits h else Text.str_of_int h.

Definition time_text (pad : bool) (h mi : Z) : string :=
  hour_text pad h ++ ":" ++ Text.two_digits mi.

Definition hour24 (pm : bool) (h : Z) : Z :=
  h mod 12 + (if pm then 12 else 0).

Definition time_round_trip (pad pm : bool) (h mi : Z) : bool :=
  match Datetime.strptime_I_M_p (time_text pad h mi ++ " " ++ am_pm_text pm)
  with
  | Val t =>
      (Datetime.hour (Datetime.time_of t) =? hour24 pm h)
      && (Datetime.minute (Datetime.time_of t) =? mi)
      && String.eqb (Datetime.strftime_I_M_p (Datetime.time_of t))
           (time_text true h mi ++ " " ++ am_pm_text pm)
  | Raise _ => false
  end.

Definition time_rejected (pad pm : bool) (h mi : Z) : bool :=
  match Datetime.strptime_I_M_p (time_text pad h mi ++ " " ++ am_pm_text pm)
  with
  | Val _ => false
  | Raise ValueError => true
  | Raise _ => false
  end.

Definition all_times (f : bool -> bool -> Z -> Z -> bool)
    (h0 : Z) (hn : nat) (m0 : Z) (mn : nat) : bool :=
  forallb (fun pad =>
    forallb (fun pm =>
      forallb (fun h => forallb (fun mi => f pad pm h mi) (zrange m0 mn))
              (zrange h0 hn))
      [true; false]) [true; false].

Lemma all_times_spec f h0 hn m0 mn pad pm h mi :
  all_times f h0 hn m0 mn = true ->
  h0 <= h < h0 + Z.of_nat hn -> m0 <= mi < m0 + Z.of_nat mn ->
  f pad pm h mi = true.
Proof.
  unfold all_times. intros A Hh Hm. rewrite forallb_forall in A.
  specialize (A pad ltac:(destruct pad; cbn; auto)).
  rewrite forallb_forall in A.
  specialize (A pm ltac:(destruct pm; cbn; auto)).
  pose proof (RangeFacts.forallb_zrange _ _ _ h A Hh) as B. cbv beta in B.
  exact (RangeFacts.forallb_zrange _ _ _ mi B Hm).
Qed.

Lemma round_trip_all : all_times time_round_trip 1 12 0 60 = true.
Proof. vm_compute. reflexivity. Qed.

Lemma rejected_hour_0 : all_times time_rejected 0 1 0 100 = true.
Proof. vm_compute. reflexivity. Qed.

Lemma rejected_hour_13 : all_times time_rejected 13 87 0 100 = true.
Proof. vm_compute. reflexivity. Qed.

Lemma rejected_minute_60 : all_times time_rejected 0 100 60 40 = true.
Proof. vm_compute. reflexivity. Qed.

(** X10. The ride time survives the way through the parser and into the
    description: an hour from 1 to 12, written with or without a leading
    zero, a minute from 00 to 59 and AM or PM parse to the 24-hour time
    (12 AM is 0, 12 PM is 12) and are written back by [%I:%M %p] as the
    same time with a two-digit hour. *)
Theorem ride_time_round_trip (pad pm : bool) (h mi : Z) :
  1 <= h <= 12 -> 0 <= mi <= 59 ->
  exists t,
    Datetime.strptime_I_M_p (time_text pad h mi ++ " " ++ am_pm_text pm)
    = Val t
    /\ Datetime.hour (Datetime.time_of t) = hour24 pm h
    /\ Datetime.minute (Datetime.time_of t) = mi
    /\ Datetime.strftime_I_M_p (Datetime.time_of t)
       = time_text true h mi ++ " " ++ am_pm_text pm.
Proof.
  intros Hh Hm.
  pose proof (all_times_spec _ _ _ _ _ pad pm h mi round_trip_all
                ltac:(cbn; lia) ltac:(cbn; lia)) as A.
  unfold time_round_trip in A.
  destruct (Datetime.strptime_I_M_p _) as [t|]; [|discriminate].
  repeat (apply andb_prop in A; destruct A as [A ?]).
  exists t. repeat split;
    first [now apply Z.eqb_eq | now apply String.eqb_eq].
Qed.

(** ** The day token *)

(** The hour and the minute of a title are runs of digits. *)
Definition time_text_digits (pad pm : bool) (h mi : Z) : bool :=
  Text.all_chars Text.is_digit (hour_text pad h)
  && (1 <=? String.length (hour_text pad h))%nat
  && (String.length (hour_text pad h) <=? 2)%nat
  && Text.all_chars Text.is_digit (Text.two_digits mi)
  && (String.length (Text.two_digits mi) =? 2)%nat.

Lemma time_text_digits_all : all_times time_text_digits 1 12 0 60 = true.
Proof. vm_compute. reflexivity. Qed.

Module DayFacts.
Import Re ReFacts TitleFacts TakeFacts.

Lemma digit_not_space a : Text.is_digit a = true -> Text.is_space a = false.
Proof.
  intros D. destruct (Text.is_space a) eqn:S; [|reflexivity].
  apply space_not_digit in S. congruence.
Qed.

(** The pattern after the day token takes a title of the form the
    specification gives, whole. *)
Lemma title_tail_takes pad pm h mi ename :
  1 <= h <= 12 -> 0 <= mi <= 59 ->
  Text.all_chars Text.is_dot ename = true ->
  starts_with (fun a => negb (Text.is_space a)) ename ->
  Re.rmatch title_tail
    (" " ++ time_text pad h mi ++ " " ++ am_pm_text pm ++ " / " ++ ename)
    [] accept
  = Some ("", [(4%nat, ename); (3%nat, am_pm_text pm);
               (2%nat, time_text pad h mi)]).
Proof.
  intros Hh Hm Dots Start.
  pose proof (all_times_spec _ _ _ _ _ pad pm h mi time_text_digits_all
                ltac:(cbn; lia) ltac:(cbn; lia)) as D.
  unfold time_text_digits in D.
  repeat (apply andb_prop in D; destruct D as [D ?]).
  repeat match goal with
         | H : (_ <=? _)%nat = true |- _ => apply Nat.leb_le in H
         | H : (_ =? _)%nat = true |- _ => apply Nat.eqb_eq in H
         end.
  assert (Nh : hour_text pad h <> "").
  { intros E. rewrite E in *. cbn in *. lia. }
  assert (Ne : ename <> "") by (destruct ename; [contradiction|discriminate]).
  assert (Se : starts_outside Text.is_space (ename ++ "")).
  { destruct ename as [|a e]; [contradiction|]. cbn in *.
    now apply negb_true_iff. }
  assert (T : takes title_tail
                (" " ++ time_text pad h mi ++ " " ++ am_pm_text pm ++ " "
                 ++ "/" ++ " " ++ ename) "" []
                [(4%nat, ename); (3%nat, am_pm_text pm);
                 (2%nat, time_text pad h mi)]).
  { unfold title_tail, plus, star. cbn [seqs].
    eapply takes_seq.
    { apply takes_rep; [reflexivity|cbn; lia|exact I|left].
      rewrite !append_assoc. unfold time_text. rewrite !append_assoc.
      apply (run_starts_outside _ Text.is_digit); auto using digit_not_space. }
    eapply takes_seq.
    { apply takes_group. unfold time_text. eapply takes_seq.
      { apply takes_rep; [assumption|lia|cbn; lia|left].
        rewrite append_assoc. reflexivity. }
      eapply takes_seq.
      { apply (takes_cls (Text.is_char ":")). reflexivity. }
      apply takes_rep; [assumption|lia|cbn; lia|left].
      reflexivity. }
    eapply takes_seq.
    { apply takes_rep; [reflexivity|cbn; lia|exact I|left].
      destruct pm; reflexivity. }
    eapply takes_seq.
    { apply takes_group. destruct pm.
      - apply takes_alt_r; [reflexivity|apply (takes_lit "PM")].
      - apply takes_alt_l. apply (takes_lit "AM"). }
    eapply takes_seq.
    { apply takes_rep; [reflexivity|cbn; lia|exact I|left]. reflexivity. }
    eapply takes_seq.
    { apply (takes_cls (Text.is_char "/")). reflexivity. }
    eapply takes_seq.
    { apply takes_rep; [reflexivity|cbn; lia|exact I|left]. exact Se. }
    apply takes_group.
    apply takes_rep; [assumption| |exact I|left; exact I].
    destruct ename; [congruence|cbn; lia]. }
  specialize (T _ accept ("", [(4%nat, ename); (3%nat, am_pm_text pm);
                               (2%nat, time_text pad h mi)]) eq_refl).
  rewrite !append_assoc, append_nil_r in T. exact T.
Qed.

End DayFacts.

Section DayToken.

Variable la_offset : Datetime.datetime -> Z.

Import ReFacts TitleFacts DayFacts CalendarFacts.

(** C9. The day token is not checked against anything. A title of the
    form "<day> <H:MM> <AM|PM> / <name>" parses whenever the hour is from 1
    to 12, the minute from 0 to 59, the name is a line that does not start
    with a blank, and the date and month resolve to a date after year 1:
    the parser returns an event, the same one for every word in the place
    of the day, be it no day name at all or the name of another weekday
    than the date's; its ride time is the resolved date at the time
    written, its calendar time 30 minutes before. More generally, two
    titles that differ only in the word before the first blank parse to
    the same result. *)
Theorem day_token_is_not_checked :
  (forall now1 now2 (pad pm : bool) (h mi : Z) ename date_text month_text
          event_url event_date,
     1 <= h <= 12 -> 0 <= mi <= 59 ->
     Text.all_chars Text.is_dot ename = true ->
     starts_with (fun a => negb (Text.is_space a)) ename ->
     resolve_event_date now1 now2 date_text month_text = Val event_date ->
     2 <= Datetime.year (Datetime.date_of event_date) ->
     exists ev,
       (forall day,
          Text.all_chars Text.is_word day = true -> day <> "" ->
          parse_event_details la_offset now1 now2
            (day ++ " " ++ time_text pad h mi ++ " " ++ am_pm_text pm
             ++ " / " ++ ename)
            date_text month_text event_url = Some ev)
       /\ name ev = Text.strip ename
       /\ url ev = event_url
       /\ original_time ev
          = localize la_offset
              (Datetime.combine (Datetime.date_of event_date)
                 (Datetime.mktime (hour24 pm h) mi 0 0))
       /\ Datetime.aware_sub (original_time ev) (Datetime.td_minutes 30)
          = Val (datetime ev))
  /\ (forall now1 now2 day1 day2 rest date_text month_text event_url,
        Text.all_chars Text.is_word day1 = true -> day1 <> "" ->
        Text.all_chars Text.is_word day2 = true -> day2 <> "" ->
        starts_with Text.is_space rest ->
        parse_event_details la_offset now1 now2 (day1 ++ rest) date_text
          month_text event_url
        = parse_event_details la_offset now1 now2 (day2 ++ rest) date_text
            month_text event_url).
Proof.
  split.
  - intros * Hh Hm Dots Start R Y.
    pose proof (all_times_spec _ _ _ _ _ pad pm h mi round_trip_all
                  ltac:(cbn; lia) ltac:(cbn; lia)) as A.
    unfold time_round_trip in A.
    destruct (Datetime.strptime_I_M_p
                (time_text pad h mi ++ " " ++ am_pm_text pm))
      as [t|] eqn:T; [|discriminate].
    apply andb_prop in A. destruct A as [A _].
    apply andb_prop in A. destruct A as [Ah Am].
    apply Z.eqb_eq in Ah, Am.
    destruct (strptime_I_M_p_valid _ _ T) as (Vt & S0 & U0).
    assert (Et : Datetime.time_of t = Datetime.mktime (hour24 pm h) mi 0 0).
    { destruct t as [d [H Mi Se Us]]. cbn in *. now subst. }
    pose proof (resolve_event_date_valid _ _ _ _ _ R) as Ved.
    set (naive := Datetime.combine (Datetime.date_of event_date)
                    (Datetime.mktime (hour24 pm h) mi 0 0)).
    assert (Vn : Datetime.valid_datetime naive = true).
    { unfold Datetime.valid_datetime in *. cbn [naive Datetime.date_of Datetime.time_of].
      rewrite <- Et.
      apply andb_prop in Ved, Vt. destruct Ved as [-> _], Vt as [_ ->].
      reflexivity. }
    destruct (DatetimeFacts.add_returns naive (- Datetime.td_minutes 30))
      as [w Hw].
    { rewrite Z.add_opp_r. apply DatetimeFacts.representable_backward; auto.
      unfold Datetime.td_minutes, Datetime.US_PER_DAY, Datetime.US_PER_SECOND.
      lia. }
    assert (Sub : Datetime.aware_sub (localize la_offset naive)
                    (Datetime.td_minutes 30)
                  = Val (Datetime.mkaware w
                           (Datetime.tz (localize la_offset naive)))).
    { unfold Datetime.aware_sub, Datetime.aware_add.
      cbn [localize Datetime.wall Datetime.tz]. unfold localize.
      cbn [Datetime.wall Datetime.tz]. now rewrite Hw. }
    exists {| name := Text.strip ename;
              datetime := Datetime.mkaware w
                            (Datetime.tz (localize la_offset naive));
              url := event_url;
              original_time := localize la_offset naive |}.
    cbn [name url original_time datetime].
    split; [|repeat split; exact Sub].
    intros day W N. unfold parse_event_details.
    rewrite (re_match_title_day day
               (" " ++ time_text pad h mi ++ " " ++ am_pm_text pm ++ " / "
                ++ ename) W N eq_refl).
    rewrite (title_tail_takes pad pm h mi ename Hh Hm Dots Start).
    cbn [option_map fst snd app Re.group Nat.eqb].
    rewrite R. cbn [except_ValueError]. rewrite T. cbn [except_ValueError].
    rewrite Et. fold naive. rewrite Sub. reflexivity.
  - intros * W1 N1 W2 N2 S. unfold parse_event_details.
    rewrite !re_match_title_day by assumption.
    destruct (Re.rmatch title_tail rest [] accept) as [[s1 c1]|];
      cbn [option_map fst snd]; [|reflexivity].
    rewrite !group_app_other by discriminate. reflexivity.
Qed.

End DayToken.

Lemma day_token_is_not_checked_witness :
  exists ev,
    parse_event_details pst_only (at_date 2024 6 1 9 0) (at_date 2024 6 1 9 0)
      "Xyz 6:30 AM / Group Ride" "15" "Jun"
      (Some "https://www.strava.com/clubs/1/group_events/12345")
    = Some ev
    /\ original_time ev = at_pst 2024 6 15 6 30.
Proof.
  destruct (proj1 (day_token_is_not_checked pst_only)
              (at_date 2024 6 1 9 0) (at_date 2024 6 1 9 0) false false
              6 30 "Group Ride" "15" "Jun"
              (Some "https://www.strava.com/clubs/1/group_events/12345")
              (at_date 2024 6 15 0 0))
    as (ev & P & _ & _ & O & _).
  - lia.
  - lia.
  - reflexivity.
  - reflexivity.
  - vm_compute. reflexivity.
  - cbn. lia.
  - exists ev. split; [|exact O].
    refine (P "Xyz" eq_refl _). discriminate.
Defined.

Section Times.

Variable la_offset : Datetime.datetime -> Z.

(** X11. A title that fits the pattern but gives hour 0, an hour above 12
    or a minute above 59 is no event: the parser returns None. *)
Theorem out_of_range_time_is_rejected
    now1 now2 title_text date_text month_text event_url rest groups
    (pad : bool) (h mi : Z) :
  Re.re_match title_pattern title_text = Some (rest, groups) ->
  Re.group 2 groups = time_text pad h mi ->
  0 <= h <= 99 -> 0 <= mi <= 99 ->
  h = 0 \/ 13 <= h \/ 60 <= mi ->
  parse_event_details la_offset now1 now2 title_text date_text month_text
    event_url = None.
Proof.
  intros M G Hh Hm Bad.
  assert (exists pm, Re.group 3 groups = am_pm_text pm) as [pm P].
  { apply TitleFacts.title_pattern_shape in M.
    destruct M as (day & ws1 & ts & ws2 & ap & ws3 & ws4 & en & _ & -> & A
                   & _).
    destruct A as [-> | ->]; [now exists false|now exists true]. }
  assert (R : time_rejected pad pm h mi = true).
  { destruct (Z.eq_dec h 0) as [->|];
      [apply (all_times_spec _ _ _ _ _ pad pm 0 mi rejected_hour_0);
       cbn; lia|].
    destruct (Z_le_gt_dec 13 h);
      [apply (all_times_spec _ _ _ _ _ pad pm h mi rejected_hour_13);
       cbn; lia|].
    apply (all_times_spec _ _ _ _ _ pad pm h mi rejected_minute_60);
      cbn; lia. }
  unfold time_rejected in R. unfold parse_event_details. rewrite M, G, P.
  destruct (resolve_event_date now1 now2 date_text month_text) as [d|[]];
    cbn [except_ValueError except_Exception]; try reflexivity.
  destruct (Datetime.strptime_I_M_p _) as [t|[]]; try discriminate.
  reflexivity.
Qed.

End Times.


(** ** How far back a date can lie *)

Section Stale.

Import Datetime DatetimeFacts DateFacts ClockFacts CalendarFacts.

(** X13. With both readings of the clock in one year, the date the parser
    settles on is never more than 60 days before the clock, and it lies
    before the end of the next year. *)
Theorem resolved_date_is_not_stale now1 now2 date_text month_text dt :
  valid_datetime now1 = true -> valid_datetime now2 = true ->
  2 <= year (date_of now2) ->
  year (date_of now1) = year (date_of now2) ->
  resolve_event_date now1 now2 date_text month_text = Val dt ->
  to_micros now2 - td_days 60 <= to_micros dt
  /\ to_micros dt
     < (days_before_year (year (date_of now2) + 2) + 1) * US_PER_DAY
  /\ valid_datetime dt = true.
Proof.
  intros V1 V2 Y2 E R.
  pose proof (resolve_event_date_valid _ _ _ _ _ R) as Vd.
  rewrite resolve_event_date_eq in R by assumption.
  pose proof (valid_datetime_year now1 V1) as HY.
  pose proof (to_micros_bounds now2 V2) as B2.
  pose proof (to_micros_bounds dt Vd) as Bd.
  set (Y := year (date_of now2)) in *. rewrite E in R.
  assert (Yr : forall y d, 0 <= y <= 10000 ->
                 strptime_d_b_Y
                   (date_text ++ " " ++ month_text ++ " "
                    ++ Text.str_of_int y) = Val d ->
                 year (date_of d) = y).
  { intros y d Hy A.
    rewrite <- (ReFacts.append_assoc date_text), <- ReFacts.append_assoc in A.
    now apply strptime_d_b_Y_year in A. }
  destruct (strptime_d_b_Y _) as [d0|] eqn:A; cbn [bind] in R;
    [|discriminate].
  split; [|split; [|exact Vd]].
  - destruct (Z.ltb_spec (to_micros d0) (to_micros now2 - td_days 60)).
    + apply Yr in R; [|lia]. rewrite R in Bd.
      unfold td_days, US_PER_DAY, US_PER_SECOND in *. lia.
    + injection R as <-. lia.
  - assert (year (date_of dt) <= Y + 1).
    { destruct (to_micros d0 <? to_micros now2 - td_days 60).
      - apply Yr in R; lia.
      - injection R as <-. apply Yr in A; lia. }
    pose proof (days_before_year_mono (year (date_of dt) + 1) (Y + 2)
                  ltac:(lia)).
    unfold US_PER_DAY, US_PER_SECOND in *. lia.
Qed.

Lemma resolved_date_is_not_stale_witness :
  to_micros (at_date 2024 6 1 9 0) - td_days 60
  <= to_micros (at_date 2024 6 15 0 0).
Proof.
  apply (resolved_date_is_not_stale (at_date 2024 6 1 9 0)
           (at_date 2024 6 1 9 0) "15" "Jun" (at_date 2024 6 15 0 0));
    first [reflexivity | cbn; lia | vm_compute; reflexivity].
Defined.

End Stale.

(** ** The properties above at the example of the specification *)

(** The row of the example, read on 1 Jun 2024 at 9:00. *)
Definition group_ride_row : observed_row :=
  (mkrow (Some ("  Tue 6:30 AM / Group Ride ",
                Some "https://www.strava.com/clubs/1/group_events/12345"))
         (Some "15") (Some " Jun"),
   (at_date 2024 6 1 9 0, at_date 2024 6 1 9 0)).

(** The same row with an anchor that has no href. *)
Definition row_without_href : observed_row :=
  (mkrow (Some ("  Tue 6:30 AM / Group Ride ", None))
         (Some "15") (Some " Jun"),
   (at_date 2024 6 1 9 0, at_date 2024 6 1 9 0)).

Definition noon_stamp (_ : nat) : Datetime.datetime := at_date 2024 6 1 16 0.

Lemma group_ride_parsed : parsed pst_only group_ride.
Proof.
  exists (at_date 2024 6 1 9 0), (at_date 2024 6 1 9 0),
    "Tue 6:30 AM / Group Ride", "15", "Jun",
    (Some "https://www.strava.com/clubs/1/group_events/12345").
  vm_compute. reflexivity.
Qed.

Lemma parsed_event_is_well_formed_witness :
  Datetime.valid_datetime (Datetime.wall (original_time group_ride)) = true.
Proof.
  exact (proj1 (parsed_event_is_well_formed pst_only group_ride
                  group_ride_parsed)).
Defined.

Lemma entry_ends_at_ride_time_witness :
  exists cal,
    generate_ics_calendar one_line noon_stamp [group_ride] = Val cal
    /\ Forall2 (fun e ps =>
                  prop "dtstart" ps = Some (VAware (datetime e))
                  /\ prop "dtend" ps = Some (VAware (original_time e)))
               [group_ride] (cal_events cal).
Proof.
  apply (proj1 (entry_ends_at_ride_time pst_only one_line noon_stamp
                  [group_ride]
                  (Forall_cons group_ride group_ride_parsed
                     (Forall_nil _)))).
  vm_compute. reflexivity.
Defined.

Lemma filter_window_in_ride_time_witness :
  exists kept,
    filter_events_by_date_range (at_pst 2024 6 1 9 0) [group_ride] = Val kept.
Proof.
  destruct (filter_window_in_ride_time pst_only (at_pst 2024 6 1 9 0)
              [group_ride]) as (kept & E & _).
  - vm_compute. reflexivity.
  - cbn. lia.
  - constructor; [exact group_ride_parsed|constructor].
  - exists kept. exact E.
Defined.


Lemma run_never_writes_empty_witness :
  exists cal,
    written (run pst_only one_line [[group_ride_row]] (at_pst 2024 6 1 9 0)
               noon_stamp)
    = Some cal
    /\ cal_events cal <> [].
Proof.
  destruct (written (run pst_only one_line [[group_ride_row]]
                       (at_pst 2024 6 1 9 0) noon_stamp)) as [cal|] eqn:E.
  - exists cal. split; [reflexivity|].
    exact (proj1 (run_never_writes_empty pst_only one_line
                    [[group_ride_row]] (at_pst 2024 6 1 9 0) noon_stamp
                    cal E)).
  - vm_compute in E. discriminate E.
Defined.

Lemma club_urls_are_stripped_lines_witness :
  "https://www.strava.com/clubs/1" <> "".
Proof.
  apply (proj1 (proj2 club_urls_are_stripped_lines)
           ["https://www.strava.com/clubs/1 " ++ String (ascii_of_nat 10) ""]
           "https://www.strava.com/clubs/1").
  vm_compute. left. reflexivity.
Defined.

Lemma event_name_is_stripped_witness :
  Re.starts_outside Text.is_space (name group_ride).
Proof.
  exact (proj1 (proj1 (event_name_is_stripped pst_only) group_ride
                  group_ride_parsed)).
Defined.

Lemma ride_time_round_trip_witness :
  exists t,
    Datetime.strptime_I_M_p "6:30 AM" = Val t
    /\ Datetime.hour (Datetime.time_of t) = 6
    /\ Datetime.minute (Datetime.time_of t) = 30
    /\ Datetime.strftime_I_M_p (Datetime.time_of t) = "06:30 AM".
Proof.
  exact (ride_time_round_trip false false 6 30 ltac:(lia) ltac:(lia)).
Defined.

Lemma out_of_range_time_is_rejected_witness :
  parse_event_details pst_only (at_date 2024 6 1 9 0) (at_date 2024 6 1 9 0)
    "Tue 13:30 PM / Group Ride" "15" "Jun"
    (Some "https://www.strava.com/clubs/1/group_events/12345")
  = None.
Proof.
  apply (out_of_range_time_is_rejected pst_only _ _ _ _ _ _ ""
           [(4%nat, "Group Ride"); (3%nat, "PM"); (2%nat, "13:30");
            (1%nat, "Tue")] false 13 30);
    first [reflexivity | lia].
Defined.


Example group_ride_row_scrapes :
  scrape_club_events pst_only [group_ride_row] = [group_ride].
Proof. vm_compute. reflexivity. Qed.

(** A row whose anchor has no href still parses, to an event without URL;
    kept by the filter, it makes the assembler raise at line 244 and [run]
    return False, with nothing written for the other events either. *)
Example row_without_href_fails_the_run :
  scrape_club_events pst_only [row_without_href]
  = [ {| name := "Group Ride"; datetime := at_pst 2024 6 15 6 0;
         url := None; original_time := at_pst 2024 6 15 6 30 |} ]
  /\ generate_ics_calendar one_line noon_stamp
       (scrape_club_events pst_only [row_without_href])
     = Raise AttributeError
  /\ run pst_only one_line [[group_ride_row]; [row_without_href]]
       (at_pst 2024 6 1 9 0) noon_stamp = mkrun None false.
Proof. repeat split; vm_compute; reflexivity. Qed.
